(** * Connection registry of the admin API backend: a shallow embedding

    Python [str] values are modelled as lists of Unicode code points
    ([pystr]), [bytes] as lists of integers in [0, 256).  Library code the
    repository calls but does not define (the AES block primitive,
    [str.lower], [uuid.UUID], [datetime] formatting, pydantic validation)
    is taken as a parameter through type classes, so every theorem holds
    for any implementation of them. *)

From Stdlib Require Import ZArith Lia Bool List String Ascii DecimalNat DecimalPos.
From stdpp Require Import base list gmap.
Import ListNotations.
Open Scope Z_scope.
Set Warnings "-register-all".

(** ** Python strings and bytes *)

Definition pystr := list Z.

(** An ASCII literal as a Python string. *)
Definition pys (x : string) : pystr :=
  map (fun a => Z.of_nat (nat_of_ascii a)) (list_ascii_of_string x).

Definition is_empty {A} (l : list A) : bool :=
  match l with [] => true | _ => false end.

Definition is_byte (b : Z) : Prop := 0 <= b < 256.

(** [needle in hay] *)
Fixpoint is_prefix (p s : pystr) : bool :=
  match p, s with
  | [], _ => true
  | a :: p', b :: s' => (a =? b) && is_prefix p' s'
  | _ :: _, [] => false
  end.

Fixpoint contains (needle hay : pystr) : bool :=
  is_prefix needle hay ||
  match hay with [] => false | _ :: hay' => contains needle hay' end.

(** Decimal rendering of a non-negative counter, as [str(n)]. *)
Fixpoint uint_digits (u : Decimal.uint) : pystr :=
  match u with
  | Decimal.Nil => []
  | Decimal.D0 u' => 48 :: uint_digits u'
  | Decimal.D1 u' => 49 :: uint_digits u'
  | Decimal.D2 u' => 50 :: uint_digits u'
  | Decimal.D3 u' => 51 :: uint_digits u'
  | Decimal.D4 u' => 52 :: uint_digits u'
  | Decimal.D5 u' => 53 :: uint_digits u'
  | Decimal.D6 u' => 54 :: uint_digits u'
  | Decimal.D7 u' => 55 :: uint_digits u'
  | Decimal.D8 u' => 56 :: uint_digits u'
  | Decimal.D9 u' => 57 :: uint_digits u'
  end.

Definition str_nat (n : nat) : pystr := uint_digits (Nat.to_uint n).

(** [str(z)] for a Python int. *)
Definition str_int (z : Z) : pystr :=
  match z with
  | Z0 => [48]
  | Zpos p => uint_digits (Pos.to_uint p)
  | Zneg p => 45 :: uint_digits (Pos.to_uint p)
  end.

(** ** Field Cipher (app/core/crypto.py) *)
Module Crypto.

(** The AES-256 block permutation under the fixed [ENCRYPTION_KEY]
    (cryptography's [algorithms.AES(ENCRYPTION_KEY)]), on 16-byte blocks. *)
Class Aes256 := {
  aes_encrypt_block : list Z -> list Z;
  aes_decrypt_block : list Z -> list Z
}.

(** [ENCRYPTION_IV = b'1234567890123456'] *)
Definition ENCRYPTION_IV : list Z := pys "1234567890123456".

(** *** [str.encode('utf-8')] and [bytes.decode('utf-8')] *)

Definition is_surrogate (c : Z) : bool := (55296 <=? c) && (c <=? 57343).

(** [None]: the encoder raises [UnicodeEncodeError]. *)
Definition utf8_encode_cp (c : Z) : option (list Z) :=
  if c <? 0 then None
  else if c <? 128 then Some [c]
  else if c <? 2048 then Some [192 + c / 64; 128 + c mod 64]
  else if c <? 65536 then
    if is_surrogate c then None
    else Some [224 + c / 4096; 128 + (c / 64) mod 64; 128 + c mod 64]
  else if c <? 1114112 then
    Some [240 + c / 262144; 128 + (c / 4096) mod 64;
          128 + (c / 64) mod 64; 128 + c mod 64]
  else None.

Fixpoint utf8_encode (s : pystr) : option (list Z) :=
  match s with
  | [] => Some []
  | c :: s' =>
      match utf8_encode_cp c, utf8_encode s' with
      | Some b, Some bs => Some (b ++ bs)
      | _, _ => None
      end
  end.

Definition is_cont (b : Z) : bool := (128 <=? b) && (b <? 192).

(** Strict decoder: rejects overlong forms, surrogates and values above
    U+10FFFF.  [None]: [UnicodeDecodeError]. *)
Fixpoint utf8_decode (bs : list Z) : option pystr :=
  match bs with
  | [] => Some []
  | b0 :: r0 =>
      if (0 <=? b0) && (b0 <? 128) then option_map (cons b0) (utf8_decode r0)
      else if (194 <=? b0) && (b0 <? 224) then
        match r0 with
        | b1 :: r1 =>
            if is_cont b1
            then option_map (cons ((b0 - 192) * 64 + (b1 - 128))) (utf8_decode r1)
            else None
        | [] => None
        end
      else if (224 <=? b0) && (b0 <? 240) then
        match r0 with
        | b1 :: b2 :: r2 =>
            let c := (b0 - 224) * 4096 + (b1 - 128) * 64 + (b2 - 128) in
            if is_cont b1 && is_cont b2 && (2048 <=? c) && negb (is_surrogate c)
            then option_map (cons c) (utf8_decode r2)
            else None
        | _ => None
        end
      else if (240 <=? b0) && (b0 <? 245) then
        match r0 with
        | b1 :: b2 :: b3 :: r3 =>
            let c := (b0 - 240) * 262144 + (b1 - 128) * 4096
                     + (b2 - 128) * 64 + (b3 - 128) in
            if is_cont b1 && is_cont b2 && is_cont b3
               && (65536 <=? c) && (c <? 1114112)
            then option_map (cons c) (utf8_decode r3)
            else None
        | _ => None
        end
      else None
  end.

(** *** PKCS#7 with a 128-bit block ([padding.PKCS7(128)]) *)

Definition pkcs7_pad (data : list Z) : list Z :=
  let n := (16 - length data mod 16)%nat in
  data ++ repeat (Z.of_nat n) n.

Definition pkcs7_unpad (data : list Z) : option (list Z) :=
  let len := length data in
  if (len =? 0)%nat || negb (len mod 16 =? 0)%nat then None
  else
    let p := List.last data 0 in
    if (0 <? p) && (p <=? 16)
       && forallb (fun b => b =? p) (skipn (len - Z.to_nat p) data)
    then Some (firstn (len - Z.to_nat p) data)
    else None.

(** *** AES-256-CBC ([modes.CBC(ENCRYPTION_IV)]) *)

Section Cbc.
Context `{Aes256}.

Definition xor_block (a b : list Z) : list Z := zip_with Z.lxor a b.

Fixpoint cbc_encrypt_blocks (n : nat) (prev data : list Z) : list Z :=
  match n with
  | O => []
  | S n' =>
      let c := aes_encrypt_block (xor_block (firstn 16 data) prev) in
      c ++ cbc_encrypt_blocks n' c (skipn 16 data)
  end.

Fixpoint cbc_decrypt_blocks (n : nat) (prev data : list Z) : list Z :=
  match n with
  | O => []
  | S n' =>
      let c := firstn 16 data in
      xor_block (aes_decrypt_block c) prev ++ cbc_decrypt_blocks n' c (skipn 16 data)
  end.

(** [encryptor.update(d) + encryptor.finalize()]: [None] when [finalize]
    raises on an incomplete block. *)
Definition cbc_encrypt (data : list Z) : option (list Z) :=
  if (length data mod 16 =? 0)%nat
  then Some (cbc_encrypt_blocks (length data / 16) ENCRYPTION_IV data)
  else None.

Definition cbc_decrypt (data : list Z) : option (list Z) :=
  if (length data mod 16 =? 0)%nat
  then Some (cbc_decrypt_blocks (length data / 16) ENCRYPTION_IV data)
  else None.

End Cbc.

(** *** Base64 ([base64.b64encode] / [base64.b64decode]) *)

Definition b64_char (v : Z) : Z :=
  if v <? 26 then 65 + v
  else if v <? 52 then 71 + v
  else if v <? 62 then v - 4
  else if v =? 62 then 43
  else 47.

Definition b64_index (c : Z) : option Z :=
  if (65 <=? c) && (c <=? 90) then Some (c - 65)
  else if (97 <=? c) && (c <=? 122) then Some (c - 71)
  else if (48 <=? c) && (c <=? 57) then Some (c + 4)
  else if c =? 43 then Some 62
  else if c =? 47 then Some 63
  else None.

Fixpoint b64encode (bs : list Z) : pystr :=
  match bs with
  | b0 :: b1 :: b2 :: r =>
      let n := b0 * 65536 + b1 * 256 + b2 in
      [b64_char (n / 262144); b64_char ((n / 4096) mod 64);
       b64_char ((n / 64) mod 64); b64_char (n mod 64)] ++ b64encode r
  | [b0; b1] =>
      let n := b0 * 65536 + b1 * 256 in
      [b64_char (n / 262144); b64_char ((n / 4096) mod 64);
       b64_char ((n / 64) mod 64); 61]
  | [b0] =>
      let n := b0 * 65536 in
      [b64_char (n / 262144); b64_char ((n / 4096) mod 64); 61; 61]
  | [] => []
  end.

(** Decoder for canonical padded input; [None] where the decoder raises.
    (CPython's non-strict decoder also skips characters outside the
    alphabet; that leniency is not modelled.) *)
Fixpoint b64decode (s : pystr) : option (list Z) :=
  match s with
  | [] => Some []
  | c0 :: c1 :: c2 :: c3 :: r =>
      match b64_index c0, b64_index c1 with
      | Some i0, Some i1 =>
          if c2 =? 61 then
            if (c3 =? 61) && is_empty r
            then Some [(i0 * 262144 + i1 * 4096) / 65536]
            else None
          else
            match b64_index c2 with
            | Some i2 =>
                let n := i0 * 262144 + i1 * 4096 + i2 * 64 in
                if c3 =? 61 then
                  if is_empty r then Some [n / 65536; (n / 256) mod 256] else None
                else
                  match b64_index c3 with
                  | Some i3 =>
                      let m := n + i3 in
                      option_map (app [m / 65536; (m / 256) mod 256; m mod 256])
                                 (b64decode r)
                  | None => None
                  end
            | None => None
            end
      | _, _ => None
      end
  | _ => None
  end.

Section Cipher.
Context `{Aes256}.

(** [encrypt_connection_string]; [None] when the call raises. *)
Definition encrypt_connection_string (plaintext : pystr) : option pystr :=
  if is_empty plaintext then Some []
  else
    match utf8_encode plaintext with
    | None => None
    | Some data =>
        match cbc_encrypt (pkcs7_pad data) with
        | None => None
        | Some encrypted_data => Some (b64encode encrypted_data)
        end
    end.

(** [decrypt_connection_string]; [None] is Python's [None] (every
    exception inside the [try] is turned into [None]). *)
Definition decrypt_connection_string (encrypted : pystr) : option pystr :=
  if is_empty encrypted then None
  else
    match b64decode encrypted with
    | None => None
    | Some encrypted_data =>
        match cbc_decrypt encrypted_data with
        | None => None
        | Some padded_data =>
            match pkcs7_unpad padded_data with
            | None => None
            | Some plaintext => utf8_decode plaintext
            end
        end
    end.

End Cipher.

(** A Unicode scalar value: what [str.encode('utf-8')] accepts. *)
Definition valid_cp (c : Z) : Prop := 0 <= c < 1114112 /\ is_surrogate c = false.

(** The block primitive is a permutation of the 16-byte blocks with the
    decryption as its inverse (true of AES under any key). *)
Definition block_inverse `{Aes256} : Prop :=
  forall b, length b = 16%nat -> Forall is_byte b ->
    length (aes_encrypt_block b) = 16%nat /\ Forall is_byte (aes_encrypt_block b) /\
    aes_decrypt_block (aes_encrypt_block b) = b.

(** A stand-in block permutation (byte-wise XOR with the key) used only to
    run the definitions on concrete inputs. *)
Definition ENCRYPTION_KEY : list Z := pys "12345678901234567890123456789012".

Definition xor_key_cipher : Aes256 := {|
  aes_encrypt_block := fun b => xor_block b (firstn 16 ENCRYPTION_KEY);
  aes_decrypt_block := fun b => xor_block b (firstn 16 ENCRYPTION_KEY)
|}.

End Crypto.

(** ** Data model (app/models/database.py, app/schemas/database.py) *)
Module Model.

Inductive DatabaseStatus := active | inactive.

(** [DatabaseStatus.value] *)
Definition status_value (s : DatabaseStatus) : pystr :=
  match s with active => pys "active" | inactive => pys "inactive" end.

(** A row of the [databases] table; timestamps are instants (Z). *)
Record Database := mkDatabase {
  id : Z;
  name : pystr;
  slug : pystr;
  type : pystr;
  connection_string : pystr;
  description : option pystr;
  status : DatabaseStatus;
  created_at : Z;
  updated_at : Z
}.

(** [DatabaseCreate] *)
Record DatabaseCreate := mkDatabaseCreate {
  c_name : pystr;
  c_type : pystr;
  c_connection_string : pystr;
  c_description : option pystr;
  c_status : DatabaseStatus
}.

(** A field of a partial-update payload: absent from the request body
    ([exclude_unset] drops it) or explicitly set, possibly to [null]. *)
Inductive Field (A : Type) := Unset | SetTo (v : option A).
Arguments Unset {A}.
Arguments SetTo {A} v.

(** [DatabaseUpdate] *)
Record DatabaseUpdate := mkDatabaseUpdate {
  u_name : Field pystr;
  u_type : Field pystr;
  u_connection_string : Field pystr;
  u_description : Field pystr;
  u_status : Field DatabaseStatus
}.

(** [DatabaseResponse]; the id is a UUID and the timestamps datetimes. *)
Record DatabaseResponse := mkDatabaseResponse {
  r_name : pystr;
  r_type : pystr;
  r_connection_string : pystr;
  r_description : option pystr;
  r_status : DatabaseStatus;
  r_id : Z;
  r_created_at : Z;
  r_updated_at : Z
}.

(** Python values crossing the cache boundary. *)
Inductive pyval :=
| PNone
| PBool (b : bool)
| PInt (z : Z)
| PStr (s : pystr)
| PList (l : list pyval)
| PDict (kv : list (pystr * pyval))
| PUUID (u : Z)
| PDateTime (t : Z).

(** Truth value of a Python object ([if x:]). *)
Definition py_truthy (v : pyval) : bool :=
  match v with
  | PNone => false
  | PBool b => b
  | PInt z => negb (z =? 0)
  | PStr s => negb (is_empty s)
  | PList l => negb (is_empty l)
  | PDict kv => negb (is_empty kv)
  | PUUID _ | PDateTime _ => true
  end.

(** [DatabaseResponse.model_dump()] (python mode: the id stays a [UUID],
    the timestamps stay [datetime]s, the status is the [str] enum). *)
Definition model_dump (r : DatabaseResponse) : pyval :=
  PDict [(pys "name", PStr (r_name r));
         (pys "type", PStr (r_type r));
         (pys "connection_string", PStr (r_connection_string r));
         (pys "description",
            match r_description r with Some d => PStr d | None => PNone end);
         (pys "status", PStr (status_value (r_status r)));
         (pys "id", PUUID (r_id r));
         (pys "created_at", PDateTime (r_created_at r));
         (pys "updated_at", PDateTime (r_updated_at r))].

End Model.

(** ** Library functions the code calls *)
Module Lib.
Import Model.

Class PyLib := {
  (** [str.lower()] *)
  py_lower : pystr -> pystr;
  (** [uuid.UUID(s)]; [None] when it raises [ValueError] *)
  uuid_parse : pystr -> option Z;
  (** pydantic validation [DatabaseResponse( **item)] of a cached value;
      [None] when it raises *)
  response_validate : pyval -> option DatabaseResponse;
  (** [datetime.isoformat()] *)
  isoformat : Z -> pystr;
  (** [datetime.strftime('%Y-%m-%d %H:%M:%S')] *)
  strftime : Z -> pystr
}.

End Lib.

(** ** Slug Resolver (app/utils/slug.py) *)
Module Slug.
Import Model Lib.

Definition is_slug_char (c : Z) : bool :=
  ((97 <=? c) && (c <=? 122)) || ((48 <=? c) && (c <=? 57)).

(** [re.sub(r'[^a-z0-9]+', '-', s)]: each maximal run of characters
    outside [a-z0-9] becomes one hyphen; [in_run] is set inside a run. *)
Fixpoint sub_non_slug (in_run : bool) (s : pystr) : pystr :=
  match s with
  | [] => []
  | c :: s' =>
      if is_slug_char c then c :: sub_non_slug false s'
      else if in_run then sub_non_slug true s'
      else 45 :: sub_non_slug true s'
  end.

Fixpoint lstrip_hyphen (s : pystr) : pystr :=
  match s with
  | c :: s' => if c =? 45 then lstrip_hyphen s' else s
  | [] => []
  end.

(** [s.strip('-')] *)
Definition strip_hyphen (s : pystr) : pystr :=
  rev (lstrip_hyphen (rev (lstrip_hyphen s))).

Section Slugs.
Context `{PyLib}.

Definition generate_slug (name : pystr) : pystr :=
  strip_hyphen (sub_non_slug false (py_lower name)).

(** [db.query(Database).filter(Database.slug == s).first()] is truthy *)
Definition slug_taken (db : list Database) (s : pystr) : bool :=
  existsb (fun d => bool_decide (slug d = s)) db.

(** The [while] loop of [generate_unique_slug]; [fuel] bounds the number
    of tests, [None] when it runs out. *)
Fixpoint unique_slug_loop (fuel : nat) (db : list Database)
    (base_slug final_slug : pystr) (counter : nat) : option pystr :=
  match fuel with
  | O => None
  | S fuel' =>
      if slug_taken db final_slug
      then unique_slug_loop fuel' db base_slug
             (base_slug ++ [45] ++ str_nat counter) (S counter)
      else Some final_slug
  end.

(** The loop always stops within [length db + 1]
    tests (proved in SlugFacts), so this fuel is exact. *)
Definition generate_unique_slug (name : pystr) (db : list Database) : option pystr :=
  let base_slug := generate_slug name in
  unique_slug_loop (S (length db)) db base_slug base_slug 1.

End Slugs.

(** [str.lower] on ASCII letters, identity elsewhere: a stand-in used only
    to run the definitions on concrete inputs. *)
Definition ascii_lib : PyLib := {|
  py_lower := map (fun c => if (65 <=? c) && (c <=? 90) then c + 32 else c);
  uuid_parse := fun _ => None;
  response_validate := fun _ => None;
  isoformat := fun t => pys "2024-01-01T00:00:00+00:00";
  strftime := fun t => pys "2024-01-01 00:00:00"
|}.

End Slug.

(* ================================================================= *)
Module Probe.
Import Lib.

(** A raised exception, carried with its [str(e)] text. *)
Inductive exn := Exn (text : pystr).

Record DatabaseTestConnection := mkDatabaseTestConnection {
  t_type : pystr;
  t_connection_string : pystr
}.

Record DatabaseTestConnectionResponse := mkDatabaseTestConnectionResponse {
  success : bool;
  message : pystr;
  latency_ms : option Z
}.

(** [try: body except Exception as e: handler(e)]: every exception the
    body raises is handed to the handler. *)
Definition try_except {A} (body : exn + A) (handler : exn -> exn + A) : exn + A :=
  match body with
  | inl e => handler e
  | inr a => inr a
  end.

Definition timeout_message := pys "Connection timeout (10s exceeded)".
Definition auth_message := pys "Authentication failed - check credentials".
Definition host_message := pys "Cannot reach database host - check host and port".

Section Ping.
Context `{PyLib}.

(** The clean-up chain of the [except] branch. *)
Definition clean_error_message (error_message : pystr) : pystr :=
  if contains (pys "timeout") (py_lower error_message) then timeout_message
  else if contains (pys "authentication") (py_lower error_message)
          || contains (pys "password") (py_lower error_message) then auth_message
  else if contains (pys "host") (py_lower error_message)
          || contains (pys "connection refused") (py_lower error_message) then host_message
  else error_message.

(** [test_database_connection]: [engine_result] is what [create_engine],
    [engine.connect()] and [execute(text("SELECT 1"))] do together
    ([None]: they succeed, [Some e]: one of them raises [e]); [start_time]
    and [end_time] are the two [time.time()] readings, and the latency is
    kept as their difference. *)
Definition test_database_connection (connection_data : DatabaseTestConnection)
    (engine_result : option exn) (start_time end_time : Z)
    : exn + DatabaseTestConnectionResponse :=
  let latency := end_time - start_time in
  try_except
    (match engine_result with
     | Some e => inl e
     | None => inr (mkDatabaseTestConnectionResponse true
                      (pys "Connection successful to " ++ t_type connection_data
                       ++ pys " database") (Some latency))
     end)
    (fun e => let 'Exn error_message := e in
       inr (mkDatabaseTestConnectionResponse false
              (pys "Connection failed: " ++ clean_error_message error_message)
              (Some latency))).

End Ping.
End Probe.

Module Cache.
Import Model.

(** A JSON document, as held (serialized) by Redis. *)
Inductive jval :=
| JNull
| JBool (b : bool)
| JNum (z : Z)
| JStr (s : pystr)
| JArr (l : list jval)
| JObj (kv : list (pystr * jval)).

(** [json.dumps]: [inl] carries the text of the [TypeError] it raises on
    a value that is not JSON serializable. *)
Fixpoint json_dumps (v : pyval) : pystr + jval :=
  match v with
  | PNone => inr JNull
  | PBool b => inr (JBool b)
  | PInt z => inr (JNum z)
  | PStr s => inr (JStr s)
  | PList l =>
      match (fix go (l : list pyval) : pystr + list jval :=
               match l with
               | [] => inr []
               | x :: l' =>
                   match json_dumps x with
                   | inl e => inl e
                   | inr j => match go l' with inl e => inl e | inr js => inr (j :: js) end
                   end
               end) l with
      | inl e => inl e
      | inr js => inr (JArr js)
      end
  | PDict kv =>
      match (fix go (kv : list (pystr * pyval)) : pystr + list (pystr * jval) :=
               match kv with
               | [] => inr []
               | (k, x) :: kv' =>
                   match json_dumps x with
                   | inl e => inl e
                   | inr j => match go kv' with inl e => inl e | inr js => inr ((k, j) :: js) end
                   end
               end) kv with
      | inl e => inl e
      | inr js => inr (JObj js)
      end
  | PUUID _ => inl (pys "Object of type UUID is not JSON serializable")
  | PDateTime _ => inl (pys "Object of type datetime is not JSON serializable")
  end.

(** [json.loads] *)
Fixpoint json_loads (j : jval) : pyval :=
  match j with
  | JNull => PNone
  | JBool b => PBool b
  | JNum z => PInt z
  | JStr s => PStr s
  | JArr l => PList (map json_loads l)
  | JObj kv => PDict (map (fun '(k, x) => (k, json_loads x)) kv)
  end.

(** Redis [KEYS] glob matching, for patterns made of literals, [*] (42)
    and [?] (63); the only pattern the code passes is ["databases:*"]. *)
Fixpoint glob_match (pattern key : pystr) : bool :=
  match pattern with
  | [] => is_empty key
  | c :: pattern' =>
      if c =? 42 then
        (fix star (key : pystr) : bool :=
           glob_match pattern' key ||
           match key with [] => false | _ :: key' => star key' end) key
      else
        match key with
        | [] => false
        | d :: key' => ((c =? 63) || (c =? d)) && glob_match pattern' key'
        end
  end.

Inductive level := DEBUG | INFO | WARNING | ERROR.

(** Redis content (key to stored JSON document; every serialized document
    is a non-empty string, so [if value:] holds for every present key) and
    the log.  Key expiry is a separate step of the environment. *)
Record cache_state := mkCacheState {
  store : gmap pystr jval;
  log : list (level * pystr)
}.

(** Outcome of the Redis calls of one cache operation ([get_redis()] and
    the command): the server answers, or a call raises with this text. *)
Inductive backend := Up | Down (err : pystr).

Definition log_line (lv : level) (msg : pystr) (c : cache_state) : cache_state :=
  mkCacheState (store c) (log c ++ [(lv, msg)]).

Definition get_cache (b : backend) (key : pystr) (c : cache_state)
    : option pyval * cache_state :=
  match b with
  | Down e =>
      (None, log_line WARNING (pys "Cache get error for key '" ++ key ++ pys "': " ++ e) c)
  | Up =>
      match store c !! key with
      | Some value => (Some (json_loads value), log_line DEBUG (pys "Cache HIT: " ++ key) c)
      | None => (None, log_line DEBUG (pys "Cache MISS: " ++ key) c)
      end
  end.

(** [settings.CACHE_TTL] with no [CACHE_TTL] in the environment. *)
Definition CACHE_TTL : Z := 300.

(** [set_cache]: [get_redis()] first, then [json.dumps], then [SETEX]. *)
Definition set_cache (b : backend) (key : pystr) (value : pyval) (ttl : Z)
    (c : cache_state) : bool * cache_state :=
  let fail e := (false, log_line WARNING (pys "Cache set error for key '" ++ key ++ pys "': " ++ e) c) in
  match b with
  | Down e => fail e
  | Up =>
      match json_dumps value with
      | inl e => fail e
      | inr serialized =>
          (true, log_line DEBUG (pys "Cache SET: " ++ key ++ pys " (TTL: " ++ str_int ttl ++ pys "s)")
                   (mkCacheState (<[key := serialized]> (store c)) (log c)))
      end
  end.

Definition delete_pattern (b : backend) (pattern : pystr) (c : cache_state)
    : bool * cache_state :=
  match b with
  | Down e =>
      (false, log_line WARNING (pys "Cache delete pattern error for '" ++ pattern ++ pys "': " ++ e) c)
  | Up =>
      let keys := List.filter (glob_match pattern) (map fst (map_to_list (store c))) in
      if is_empty keys then (true, c)
      else (true, log_line INFO (pys "Cache invalidated: " ++ str_nat (length keys)
                                 ++ pys " keys matching '" ++ pattern ++ pys "'")
                     (mkCacheState (foldr delete (store c) keys) (log c)))
  end.

Definition cache_key_database_list (skip limit : Z) : pystr :=
  pys "databases:list:" ++ str_int skip ++ pys ":" ++ str_int limit.

Definition cache_key_database (id_or_slug : pystr) : pystr :=
  pys "databases:item:" ++ id_or_slug.

Definition invalidate_database_cache (b : backend) (c : cache_state) : cache_state :=
  snd (delete_pattern b (pys "databases:*") c).

Definition delete_cache (b : backend) (key : pystr) (c : cache_state) : bool * cache_state :=
  match b with
  | Down e =>
      (false, log_line WARNING (pys "Cache delete error for key '" ++ key ++ pys "': " ++ e) c)
  | Up =>
      (true, log_line DEBUG (pys "Cache DELETE: " ++ key)
               (mkCacheState (delete key (store c)) (log c)))
  end.

(** *** The module-global client of [get_redis] / [close_redis] *)

(** [settings.REDIS_HOST] and [settings.REDIS_PORT] with no environment
    overrides. *)
Definition REDIS_HOST : pystr := pys "localhost".
Definition REDIS_PORT : Z := 6379.

(** The global [redis_client] ([Some n]: the [n]-th client object built),
    the number of [redis.Redis(...)] objects built so far, and the log. *)
Record redis_module := mkRedisModule {
  redis_client : option nat;
  clients_built : nat;
  redis_log : list (level * pystr)
}.

(** [get_redis()]: [ping] is what [await redis_client.ping()] does on a
    freshly built client ([None]: the server answers, [Some e]: it raises
    [e]).  Building [redis.Redis(...)] opens no connection and does not
    raise; the global is assigned before the ping.  [inl e]: the call
    re-raises [e]. *)
Definition get_redis (ping : option pystr) (m : redis_module) : (pystr + nat) * redis_module :=
  match redis_client m with
  | Some client => (inr client, m)
  | None =>
      let client := clients_built m in
      match ping with
      | None =>
          (inr client,
           mkRedisModule (Some client) (S client)
             (redis_log m ++ [(INFO, pys "Redis connected to " ++ REDIS_HOST ++ pys ":"
                                     ++ str_int REDIS_PORT)]))
      | Some e =>
          (inl e,
           mkRedisModule (Some client) (S client)
             (redis_log m ++ [(ERROR, pys "Failed to connect to Redis at " ++ REDIS_HOST
                                      ++ pys ":" ++ str_int REDIS_PORT ++ pys ": " ++ e)]))
      end
  end.

(** [close_redis()]: [closing] is what [await redis_client.close()] does
    ([Some e]: it raises [e], and the global is not reset). *)
Definition close_redis (closing : option pystr) (m : redis_module) : (pystr + unit) * redis_module :=
  match redis_client m with
  | None => (inr tt, m)
  | Some _ =>
      match closing with
      | None => (inr tt, mkRedisModule None (clients_built m) (redis_log m))
      | Some e => (inl e, m)
      end
  end.

End Cache.

Module Service.
Import Crypto Model Lib Slug Cache.

(** What a request can end in besides its result: an [HTTPException], or
    an uncaught exception (FastAPI answers 500). *)
Inductive ApiError :=
| HTTPError (status_code : Z) (detail : pystr)
| Internal (what : pystr).

Inductive CacheStatus := HIT | MISS.

#[global] Instance DatabaseStatus_eq_dec : EqDecision DatabaseStatus.
Proof. solve_decision. Defined.

(** The [databases] table (in storage order) and the Redis cache. *)
Record St := mkSt {
  st_db : list Database;
  st_cache : cache_state
}.

(** A request handler: the session rolls back on an exception, so a failed
    request changes the table only through what it committed earlier. *)
Definition M (A : Type) := St -> (ApiError + A) * St.

Definition ret {A} (a : A) : M A := fun st => (inr a, st).
Definition bind {A B} (m : M A) (f : A -> M B) : M B :=
  fun st => match m st with
            | (inl e, st') => (inl e, st')
            | (inr a, st') => f a st'
            end.
Definition raise {A} (e : ApiError) : M A := fun st => (inl e, st).
Definition get_db : M (list Database) := fun st => (inr (st_db st), st).
Definition put_db (db : list Database) : M unit :=
  fun st => (inr tt, mkSt db (st_cache st)).
Definition cache_op {A} (f : cache_state -> A * cache_state) : M A :=
  fun st => let '(a, c) := f (st_cache st) in (inr a, mkSt (st_db st) c).
Definition lift_option {A} (what : pystr) (o : option A) : M A :=
  match o with Some a => ret a | None => raise (Internal what) end.

Notation "x <- m ;; k" := (bind m (fun x => k))
  (at level 100, m at next level, right associativity).
Notation "m ;;; k" := (bind m (fun _ => k)) (at level 100, right associativity).

Fixpoint mapM {A B} (f : A -> M B) (l : list A) : M (list B) :=
  match l with
  | [] => ret []
  | x :: l' => y <- f x;; ys <- mapM f l';; ret (y :: ys)
  end.

(** A text value PostgreSQL accepts: no NUL, and encodable as UTF-8 by the
    driver (no lone surrogate). *)
Definition pg_text_ok (s : pystr) : bool :=
  forallb (fun c => negb (c =? 0) && negb (is_surrogate c)) s.

(** Column checks of a written row: [String(255)], [String(50)], text. *)
Definition row_ok (d : Database) : bool :=
  (Z.of_nat (length (name d)) <=? 255) && (Z.of_nat (length (slug d)) <=? 255)
  && (Z.of_nat (length (type d)) <=? 50)
  && pg_text_ok (name d) && pg_text_ok (slug d) && pg_text_ok (type d)
  && pg_text_ok (connection_string d)
  && match description d with Some x => pg_text_ok x | None => true end.

(** What psycopg2 raises, before anything reaches the server, when it
    adapts a text parameter that PostgreSQL does not accept: it encodes the
    text as UTF-8 first ([UnicodeEncodeError] on a lone surrogate), then
    refuses a NUL ([ValueError]). *)
Definition driver_text_error (s : pystr) : pystr :=
  if existsb is_surrogate s then pys "UnicodeEncodeError" else pys "ValueError".

(** The text columns of a row, in the column order of the table (the
    order in which the INSERT or UPDATE adapts its parameters). *)
Definition text_columns (d : Database) : list pystr :=
  [name d; slug d; type d; connection_string d]
  ++ match description d with Some x => [x] | None => [] end.

(** The exception of a refused INSERT or UPDATE: the driver's, for the
    first text column it cannot send; else PostgreSQL's [DataError] for a
    value too long for its [String(n)] column; else the [IntegrityError] of
    a primary-key violation. *)
Definition row_failure (d : Database) : pystr :=
  match List.find (fun s => negb (pg_text_ok s)) (text_columns d) with
  | Some s => driver_text_error s
  | None =>
      if (Z.of_nat (length (name d)) <=? 255) && (Z.of_nat (length (slug d)) <=? 255)
         && (Z.of_nat (length (type d)) <=? 50)
      then pys "IntegrityError" else pys "DataError"
  end.

Definition id_taken (db : list Database) (i : Z) : bool :=
  existsb (fun d => id d =? i) db.

Definition replace_by_id (d' : Database) (db : list Database) : list Database :=
  map (fun d => if id d =? id d' then d' else d) db.

Section Endpoints.
Context `{Aes256} `{PyLib}.

(** [DatabaseResponse( **db_dict)] of a stored record. *)
Definition to_response (database : Database) : M DatabaseResponse :=
  c <- lift_option (pys "UnicodeEncodeError") (encrypt_connection_string (connection_string database));;
  ret (mkDatabaseResponse (name database) (type database) c (description database)
         (status database) (id database) (created_at database) (updated_at database)).

(** [db.query(Database).offset(skip).limit(limit).all()] *)
Definition query_page (skip limit : Z) : M (list Database) :=
  db <- get_db;;
  if (skip <? 0) || (limit <? 0) then raise (Internal (pys "DataError"))
  else ret (firstn (Z.to_nat limit) (skipn (Z.to_nat skip) db)).

Definition find_first (p : Database -> bool) (db : list Database) : option Database :=
  List.find p db.

(** A text that is no UUID is looked up by slug inside the [except
    ValueError] handler: a slug the driver cannot send raises there, and
    nothing catches it. *)
Definition get_database_by_id_or_slug (id_or_slug : pystr) : M Database :=
  db <- get_db;;
  database <- match uuid_parse id_or_slug with
              | Some database_id => ret (find_first (fun d => id d =? database_id) db)
              | None =>
                  if pg_text_ok id_or_slug
                  then ret (find_first (fun d => bool_decide (slug d = id_or_slug)) db)
                  else raise (Internal (driver_text_error id_or_slug))
              end;;
  match database with
  | Some d => ret d
  | None => raise (HTTPError 404 (pys "Database with id or slug '" ++ id_or_slug
                                   ++ pys "' not found"))
  end.

(** [[DatabaseResponse( **item) for item in cached]] *)
Definition validate_list (cached : pyval) : M (list DatabaseResponse) :=
  match cached with
  | PList items => mapM (fun item => lift_option (pys "ValidationError") (response_validate item)) items
  | _ => raise (Internal (pys "TypeError"))
  end.

Definition get_databases (b_get b_set : backend) (skip limit : Z)
    : M (list DatabaseResponse * CacheStatus) :=
  let cache_key := cache_key_database_list skip limit in
  cached <- cache_op (get_cache b_get cache_key);;
  match cached with
  | Some v =>
      if py_truthy v then r <- validate_list v;; ret (r, HIT)
      else databases <- query_page skip limit;;
           result <- mapM to_response databases;;
           cache_op (set_cache b_set cache_key (PList (map model_dump result)) CACHE_TTL);;;
           ret (result, MISS)
  | None =>
      databases <- query_page skip limit;;
      result <- mapM to_response databases;;
      cache_op (set_cache b_set cache_key (PList (map model_dump result)) CACHE_TTL);;;
      ret (result, MISS)
  end.

Definition get_database (b_get b_set : backend) (id_or_slug : pystr)
    : M (DatabaseResponse * CacheStatus) :=
  let cache_key := cache_key_database id_or_slug in
  cached <- cache_op (get_cache b_get cache_key);;
  let miss :=
    database <- get_database_by_id_or_slug id_or_slug;;
    result <- to_response database;;
    cache_op (set_cache b_set cache_key (model_dump result) CACHE_TTL);;;
    ret (result, MISS) in
  match cached with
  | Some v =>
      if py_truthy v
      then r <- lift_option (pys "ValidationError") (response_validate v);; ret (r, HIT)
      else miss
  | None => miss
  end.

(** [await invalidate_database_cache()] *)
Definition invalidate (b_inv : backend) : M unit :=
  cache_op (fun c => (tt, invalidate_database_cache b_inv c)).

(** [create_database]: [new_id] is the [uuid4()] default, [now] the
    transaction time the server defaults of both timestamps take.  Requests
    run one after another here, so the second slug query sees the table the
    slug loop saw; the 409 it guards is for a row another worker commits
    between the two queries, which this sequential model does not produce. *)
Definition create_database (b_inv : backend) (new_id now : Z)
    (database_in : DatabaseCreate) : M DatabaseResponse :=
  db <- get_db;;
  slug <- lift_option (pys "slug loop") (generate_unique_slug (c_name database_in) db);;
  if slug_taken db slug
  then raise (HTTPError 409 (pys "Database with slug '" ++ slug ++ pys "' already exists"))
  else
    let database := mkDatabase new_id (c_name database_in) slug (c_type database_in)
                      (c_connection_string database_in) (c_description database_in)
                      (c_status database_in) now now in
    if row_ok database && negb (id_taken db new_id)
    then put_db (db ++ [database]);;;
         invalidate b_inv;;;
         to_response database
    else raise (Internal (row_failure database)).

(** Value of an attribute after [setattr] for the fields of
    [model_dump(exclude_unset=True)]. *)
Definition pick {A} (f : Field A) (old : A) : option A :=
  match f with Unset => Some old | SetTo v => v end.

(** [update_database]: the flush at [db.commit()] emits an UPDATE only when
    some attribute's value differs from the loaded one; only then do the
    column constraints apply and does [onupdate=func.now()] set
    [updated_at] to the transaction time [now]. *)
Definition update_database (b_inv : backend) (now : Z) (id_or_slug : pystr)
    (database_in : DatabaseUpdate) : M DatabaseResponse :=
  database <- get_database_by_id_or_slug id_or_slug;;
  let name' := pick (u_name database_in) (name database) in
  let type' := pick (u_type database_in) (type database) in
  let connection_string' := pick (u_connection_string database_in) (connection_string database) in
  let description' := match u_description database_in with
                      | Unset => description database
                      | SetTo v => v
                      end in
  let status' := pick (u_status database_in) (status database) in
  let unchanged := bool_decide (name' = Some (name database))
                   && bool_decide (type' = Some (type database))
                   && bool_decide (connection_string' = Some (connection_string database))
                   && bool_decide (description' = description database)
                   && bool_decide (status' = Some (status database)) in
  if unchanged
  then invalidate b_inv;;; to_response database
  else
    match name', type', connection_string', status' with
    | Some n, Some t, Some c, Some s =>
        let database' := mkDatabase (id database) n (slug database) t c description' s
                           (created_at database) now in
        if row_ok database'
        then db <- get_db;;
             put_db (replace_by_id database' db);;;
             invalidate b_inv;;;
             to_response database'
        else raise (Internal (row_failure database'))
    | _, _, _, _ => raise (Internal (pys "IntegrityError"))
    end.

Definition delete_database (b_inv : backend) (id_or_slug : pystr) : M unit :=
  database <- get_database_by_id_or_slug id_or_slug;;
  db <- get_db;;
  put_db (List.filter (fun d => negb (id d =? id database)) db);;;
  invalidate b_inv.

(** A request to the registry, or an event of its environment. *)
Inductive request :=
| ListReq (b_get b_set : backend) (skip limit : Z)
| GetReq (b_get b_set : backend) (id_or_slug : pystr)
| CreateReq (b_inv : backend) (new_id now : Z) (database_in : DatabaseCreate)
| UpdateReq (b_inv : backend) (now : Z) (id_or_slug : pystr) (database_in : DatabaseUpdate)
| DeleteReq (b_inv : backend) (id_or_slug : pystr)
(** the TTL of a key runs out *)
| Expire (key : pystr)
(** another client writes a key outside the registry namespace *)
| ForeignSet (key : pystr) (value : jval).

Definition registry_prefix : pystr := pys "databases:".

Definition handle (r : request) (st : St) : St :=
  match r with
  | ListReq bg bs skip limit => snd (get_databases bg bs skip limit st)
  | GetReq bg bs id_or_slug => snd (get_database bg bs id_or_slug st)
  | CreateReq bi new_id now database_in => snd (create_database bi new_id now database_in st)
  | UpdateReq bi now id_or_slug database_in => snd (update_database bi now id_or_slug database_in st)
  | DeleteReq bi id_or_slug => snd (delete_database bi id_or_slug st)
  | Expire key => mkSt (st_db st) (mkCacheState (delete key (store (st_cache st))) (log (st_cache st)))
  | ForeignSet key value =>
      if is_prefix registry_prefix key then st
      else mkSt (st_db st) (mkCacheState (<[key := value]> (store (st_cache st))) (log (st_cache st)))
  end.

(** States reached from any table and a cache holding no registry key. *)
Inductive reachable : St -> Prop :=
| reachable_init (db : list Database) (c : cache_state) :
    (forall k, is_prefix registry_prefix k = true -> store c !! k = None) ->
    reachable (mkSt db c)
| reachable_step (r : request) (st : St) :
    reachable st -> reachable (handle r st).

End Endpoints.

(** Results of the storage-only paths, as plain values (used to state the
    facts below). *)
Definition query_page_result (skip limit : Z) (db : list Database)
    : ApiError + list Database :=
  if (skip <? 0) || (limit <? 0) then inl (Internal (pys "DataError"))
  else inr (firstn (Z.to_nat limit) (skipn (Z.to_nat skip) db)).

Definition lookup_result `{PyLib} (id_or_slug : pystr) (db : list Database)
    : ApiError + Database :=
  match match uuid_parse id_or_slug with
        | Some database_id => inr (find_first (fun d => id d =? database_id) db)
        | None =>
            if pg_text_ok id_or_slug
            then inr (find_first (fun d => bool_decide (slug d = id_or_slug)) db)
            else inl (Internal (driver_text_error id_or_slug))
        end with
  | inl e => inl e
  | inr (Some d) => inr d
  | inr None => inl (HTTPError 404 (pys "Database with id or slug '" ++ id_or_slug
                                    ++ pys "' not found"))
  end.

Definition response_result `{Aes256} (d : Database) : ApiError + DatabaseResponse :=
  match encrypt_connection_string (connection_string d) with
  | Some c => inr (mkDatabaseResponse (name d) (type d) c (description d)
                     (status d) (id d) (created_at d) (updated_at d))
  | None => inl (Internal (pys "UnicodeEncodeError"))
  end.

Fixpoint responses_result `{Aes256} (ds : list Database) : ApiError + list DatabaseResponse :=
  match ds with
  | [] => inr []
  | d :: ds' =>
      match response_result d with
      | inl e => inl e
      | inr r => match responses_result ds' with inl e => inl e | inr rs => inr (r :: rs) end
      end
  end.

(** What a list read answers when it misses the cache. *)
Definition list_miss_result `{Aes256} (skip limit : Z) (db : list Database)
    : ApiError + (list DatabaseResponse * CacheStatus) :=
  match query_page_result skip limit db with
  | inl e => inl e
  | inr ds => match responses_result ds with inl e => inl e | inr rs => inr (rs, MISS) end
  end.

(** What an item read answers when it misses the cache. *)
Definition item_miss_result `{Aes256} `{PyLib} (id_or_slug : pystr) (db : list Database)
    : ApiError + (DatabaseResponse * CacheStatus) :=
  match lookup_result id_or_slug db with
  | inl e => inl e
  | inr d => match response_result d with inl e => inl e | inr r => inr (r, MISS) end
  end.

(** Every registry key of the cache holds the empty list. *)
Definition cache_inv (c : cache_state) : Prop :=
  forall k v, store c !! k = Some v -> is_prefix registry_prefix k = true -> v = JArr [].

Definition preserves {A} (m : M A) : Prop :=
  forall st, cache_inv (st_cache st) -> cache_inv (st_cache (snd (m st))).

(** No registry key is left, and the next list or item read (with Redis
    answering) is recomputed from storage. *)
Definition registry_fresh `{Aes256} `{PyLib} (st : St) : Prop :=
  (forall k, is_prefix registry_prefix k = true -> store (st_cache st) !! k = None) /\
  (forall bs skip limit, fst (get_databases Up bs skip limit st) = list_miss_result skip limit (st_db st)) /\
  (forall bs x, fst (get_database Up bs x st) = item_miss_result x (st_db st)).

End Service.

Module Samples.
Import Model Cache Service.

(** A stored record, as the service would have created it. *)
Definition sample_db : Database :=
  mkDatabase 7 (pys "Prod DB") (pys "prod-db") (pys "postgres")
    (pys "postgresql://app:pw@db:5432/prod") None active 100 100.

(** The same record with an empty connection string. *)
Definition sample_db_empty_secret : Database :=
  mkDatabase 7 (pys "Prod DB") (pys "prod-db") (pys "postgres") [] None active 100 100.

Definition sample_create : DatabaseCreate :=
  mkDatabaseCreate (pys "Staging DB") (pys "postgres")
    (pys "postgresql://app:pw@db:5432/staging") None active.

(** A cache holding the empty first page, as [get_databases] leaves it
    after reading an empty table. *)
Definition cache_empty_page : cache_state :=
  mkCacheState (<[cache_key_database_list 0 100 := JArr []]> ∅) [].

Definition empty_cache : cache_state := mkCacheState ∅ [].

(** A name that ends the backup's comment line and adds a statement. *)
Definition injected_name : pystr :=
  pys "x" ++ [10] ++ pys "UPDATE databases SET created_at = now();--".

Definition sample_create_injected : DatabaseCreate :=
  mkDatabaseCreate injected_name (pys "postgres") (pys "postgresql://app:pw@db:5432/x")
    None active.

(** The text of a UUID, and a stand-in library that parses it (and no
    other text), used only to run the definitions on concrete inputs. *)
Definition uuid_text : pystr := pys "00000000-0000-0000-0000-000000000009".

Definition uuid_lib : Lib.PyLib := {|
  Lib.py_lower := @Lib.py_lower Slug.ascii_lib;
  Lib.uuid_parse := fun s => if bool_decide (s = uuid_text) then Some 9 else None;
  Lib.response_validate := fun _ => None;
  Lib.isoformat := @Lib.isoformat Slug.ascii_lib;
  Lib.strftime := @Lib.strftime Slug.ascii_lib
|}.

(** A record named by a UUID text: its slug is that text. *)
Definition uuid_named_db : Database :=
  mkDatabase 5 uuid_text uuid_text (pys "postgres") (pys "postgresql://app:pw@db:5432/u")
    None active 100 100.

End Samples.

Module Backup.
Import Crypto Model Lib.

(** [value.replace("'", "''")] *)
Fixpoint double_quotes (s : pystr) : pystr :=
  match s with
  | [] => []
  | c :: s' => if c =? 39 then 39 :: 39 :: double_quotes s' else c :: double_quotes s'
  end.

Definition escape_sql_string (value : option pystr) : pystr :=
  match value with
  | None => pys "NULL"
  | Some v => [39] ++ double_quotes v ++ [39]
  end.

Definition hex_char (v : Z) : Z := if v <? 10 then 48 + v else 87 + v.

(** The [n] low hexadecimal digits of [z], most significant first. *)
Fixpoint hex_digits (n : nat) (z : Z) : pystr :=
  match n with
  | O => []
  | S n' => hex_digits n' (z / 16) ++ [hex_char (z mod 16)]
  end.

(** [str(uuid)]: 8-4-4-4-12 lowercase hexadecimal digits. *)
Definition uuid_str (u : Z) : pystr :=
  let h := hex_digits 32 u in
  firstn 8 h ++ [45] ++ firstn 4 (skipn 8 h) ++ [45] ++ firstn 4 (skipn 12 h) ++ [45]
  ++ firstn 4 (skipn 16 h) ++ [45] ++ skipn 20 h.

(** [.order_by(Database.created_at)]; rows with equal [created_at], whose
    order PostgreSQL leaves open, come out in reverse storage order. *)
Fixpoint insert_by_created (d : Database) (l : list Database) : list Database :=
  match l with
  | [] => [d]
  | d' :: l' => if created_at d <? created_at d' then d :: l else d' :: insert_by_created d l'
  end.

Fixpoint sort_by_created (l : list Database) : list Database :=
  match l with
  | [] => []
  | d :: l' => insert_by_created d (sort_by_created l')
  end.

(** ["\n".join(lines)] *)
Fixpoint join_lines (lines : list pystr) : pystr :=
  match lines with
  | [] => []
  | [x] => x
  | x :: lines' => x ++ [10] ++ join_lines lines'
  end.

Definition rule_line : pystr := pys "-- " ++ repeat 61 67.

(** [encode_sql_to_base64]: [None] when [sql.encode('utf-8')] raises; the
    base64 text is ASCII, so [.decode('utf-8')] gives it back unchanged. *)
Definition encode_sql_to_base64 (sql : pystr) : option pystr :=
  option_map b64encode (utf8_encode sql).

(** The integer nearest to [n / d] (d > 0), ties to even: Python's
    [round] on the exact value of a float. *)
Definition round_half_even (n d : Z) : Z :=
  let q := n / d in
  let r := n mod d in
  if 2 * r <? d then q
  else if d <? 2 * r then q + 1
  else if Z.even q then q else q + 1.

(** [calculate_size_mb]: [round(size_bytes / (1024 * 1024), 4)], given as
    a count of ten-thousandths of a megabyte (the float returned is the
    double nearest to that count over 10000; [size_bytes / 2**20] is exact
    in binary for every size below 2**53). *)
Definition calculate_size_mb (content : pystr) : option Z :=
  option_map (fun size_bytes => round_half_even (Z.of_nat (length size_bytes) * 10000) (1024 * 1024))
    (utf8_encode content).

(** [BackupResponse]; [size_mb] in ten-thousandths of a megabyte. *)
Record BackupResponse := mkBackupResponse {
  sql_base64 : pystr;
  size_mb : Z;
  size_bytes : Z;
  total_records : Z;
  format : pystr;
  compression : pystr
}.

(** The [PlainTextResponse] of the download: its body, media type, the
    [Content-Disposition] header, and the size ([X-Backup-Size-MB], in
    ten-thousandths of a megabyte) and record count ([X-Backup-Records])
    headers. *)
Record DownloadResponse := mkDownloadResponse {
  content : pystr;
  media_type : pystr;
  content_disposition : pystr;
  backup_size_mb : Z;
  backup_records : Z
}.

Section Script.
Context `{PyLib}.

Definition record_lines (database : Database) : list pystr :=
  let id_val := [39] ++ uuid_str (id database) ++ [39] in
  let name_val := escape_sql_string (Some (name database)) in
  let slug_val := escape_sql_string (Some (slug database)) in
  let type_val := escape_sql_string (Some (type database)) in
  let conn_str_val := escape_sql_string (Some (connection_string database)) in
  let desc_val := escape_sql_string (description database) in
  let status_val := [39] ++ status_value (status database) ++ [39] in
  let created_val := [39] ++ isoformat (created_at database) ++ [39] in
  let updated_val := [39] ++ isoformat (updated_at database) ++ [39] in
  [pys "-- Backup record: " ++ name database ++ pys " (" ++ slug database ++ pys ")";
   pys "INSERT INTO databases (";
   pys "    id, name, slug, type, connection_string, description, status, created_at, updated_at";
   pys ") VALUES (";
   pys "    " ++ id_val ++ pys "::uuid,";
   pys "    " ++ name_val ++ pys ",";
   pys "    " ++ slug_val ++ pys ",";
   pys "    " ++ type_val ++ pys ",";
   pys "    " ++ conn_str_val ++ pys ",";
   pys "    " ++ desc_val ++ pys ",";
   pys "    " ++ status_val ++ pys "::database_status,";
   pys "    " ++ created_val ++ pys "::timestamp with time zone,";
   pys "    " ++ updated_val ++ pys "::timestamp with time zone";
   pys ")";
   pys "ON CONFLICT (id) DO UPDATE SET";
   pys "    name = " ++ name_val ++ pys ",";
   pys "    slug = " ++ slug_val ++ pys ",";
   pys "    type = " ++ type_val ++ pys ",";
   pys "    connection_string = " ++ conn_str_val ++ pys ",";
   pys "    description = " ++ desc_val ++ pys ",";
   pys "    status = " ++ status_val ++ pys "::database_status,";
   pys "    updated_at = " ++ updated_val ++ pys "::timestamp with time zone;";
   []].

Definition generate_backup_sql (db : list Database) : pystr :=
  let databases := sort_by_created db in
  match databases with
  | [] => pys "-- No databases to backup" ++ [10]
  | first :: _ =>
      join_lines
        ([rule_line;
          pys "-- Database Connections Backup";
          pys "-- Generated: " ++ strftime (created_at first);
          pys "-- Total records: " ++ str_nat (length databases);
          rule_line;
          [];
          pys "-- Ensure database_status enum exists";
          pys "DO $$ BEGIN";
          pys "    CREATE TYPE database_status AS ENUM ('active', 'inactive');";
          pys "EXCEPTION";
          pys "    WHEN duplicate_object THEN null;";
          pys "END $$;";
          []]
         ++ concat (map record_lines databases)
         ++ [rule_line;
             pys "-- Backup completed successfully";
             pys "-- Total records processed: " ++ str_nat (length databases);
             rule_line])
  end.

(** [backup_databases] (GET /databases/backup); [None] when
    [sql.encode('utf-8')] raises (FastAPI answers 500). *)
Definition backup_databases (db : list Database) : option BackupResponse :=
  let sql_script := generate_backup_sql db in
  match encode_sql_to_base64 sql_script with
  | None => None
  | Some sql_base64 =>
      match calculate_size_mb sql_script with
      | None => None
      | Some size_mb =>
          match utf8_encode sql_script with
          | None => None
          | Some encoded =>
              Some (mkBackupResponse sql_base64 size_mb (Z.of_nat (length encoded))
                      (Z.of_nat (length db)) (pys "sql") (pys "base64"))
          end
      end
  end.

(** [download_backup_sql] (GET /databases/backup/download); [stamp] is
    [datetime.now().strftime('%Y%m%d_%H%M%S')], [None] when the size
    header raises on encoding the script. *)
Definition download_backup_sql (stamp : pystr) (db : list Database) : option DownloadResponse :=
  let sql_script := generate_backup_sql db in
  let filename := pys "databases_backup_" ++ stamp ++ pys ".sql" in
  match calculate_size_mb sql_script with
  | None => None
  | Some size_mb =>
      Some (mkDownloadResponse sql_script (pys "application/sql")
              (pys "attachment; filename=" ++ [34] ++ filename ++ [34])
              size_mb (Z.of_nat (length db)))
  end.

End Script.

(** How [psql -f] cuts a script into statements: [--] comments run to the
    end of the line, ['...'] literals and [$$...$$] bodies are opaque, and
    a [;] outside them ends a statement.  Comments are dropped. *)
Inductive lex_state := LNormal | LLineComment | LQuote | LDollar.

Fixpoint split_statements (ls : lex_state) (cur : pystr) (s : pystr) : list pystr :=
  match s with
  | [] => [cur]
  | c :: s' =>
      match ls with
      | LNormal =>
          if c =? 59 then cur :: split_statements LNormal [] s'
          else if c =? 39 then split_statements LQuote (cur ++ [c]) s'
          else match s' with
               | d :: s'' =>
                   if (c =? 45) && (d =? 45) then split_statements LLineComment cur s''
                   else if (c =? 36) && (d =? 36) then split_statements LDollar (cur ++ [36; 36]) s''
                   else split_statements LNormal (cur ++ [c]) s'
               | [] => split_statements LNormal (cur ++ [c]) s'
               end
      | LLineComment =>
          if c =? 10 then split_statements LNormal (cur ++ [10]) s'
          else split_statements LLineComment cur s'
      | LQuote =>
          if c =? 39 then split_statements LNormal (cur ++ [c]) s'
          else split_statements LQuote (cur ++ [c]) s'
      | LDollar =>
          match s' with
          | d :: s'' =>
              if (c =? 36) && (d =? 36) then split_statements LNormal (cur ++ [36; 36]) s''
              else split_statements LDollar (cur ++ [c]) s'
          | [] => split_statements LDollar (cur ++ [c]) s'
          end
      end
  end.

Definition is_space (c : Z) : bool := (c =? 32) || (c =? 10) || (c =? 9) || (c =? 13).

Fixpoint drop_space (s : pystr) : pystr :=
  match s with c :: s' => if is_space c then drop_space s' else s | [] => [] end.

Definition trim (s : pystr) : pystr := rev (drop_space (rev (drop_space s))).

(** The non-blank statements of a script, trimmed. *)
Definition pg_statements (script : pystr) : list pystr :=
  List.filter (fun st => negb (is_empty st)) (map trim (split_statements LNormal [] script)).

End Backup.

(** * Proofs *)
(* ================================================================= *)

Example b64_man : Crypto.b64encode (pys "Man") = pys "TWFu".
Proof. reflexivity. Qed.
Example b64_ma : Crypto.b64encode (pys "Ma") = pys "TWE=".
Proof. reflexivity. Qed.
Example rt_secret :
  option_bind _ _ (@Crypto.decrypt_connection_string Crypto.xor_key_cipher)
    (@Crypto.encrypt_connection_string Crypto.xor_key_cipher (pys "secret1"))
  = Some (pys "secret1").
Proof. vm_compute. reflexivity. Qed.
Example slug_prod : @Slug.generate_slug Slug.ascii_lib (pys "Prod DB") = pys "prod-db".
Proof. reflexivity. Qed.
Example slug_sym : @Slug.generate_slug Slug.ascii_lib (pys "--Hello,  World!!") = pys "hello-world".
Proof. reflexivity. Qed.
Example utf8_rt : Crypto.utf8_decode [226; 130; 172] = Some [8364].
Proof. reflexivity. Qed.

Module CryptoFacts.
Import Crypto.

(** [lia] after naming the quotients and remainders by constants. *)
Ltac zlia := Z.to_euclidean_division_equations; lia.

(** Settle every integer comparison of the goal that [lia] decides. *)
Ltac zb :=
  repeat match goal with
  | |- context [?a <? ?b] =>
      first [ rewrite (proj2 (Z.ltb_lt a b)) by zlia
            | rewrite (proj2 (Z.ltb_ge a b)) by zlia ]
  | |- context [?a <=? ?b] =>
      first [ rewrite (proj2 (Z.leb_le a b)) by zlia
            | rewrite (proj2 (Z.leb_gt a b)) by zlia ]
  | |- context [?a =? ?b] =>
      first [ rewrite (proj2 (Z.eqb_eq a b)) by zlia
            | rewrite (proj2 (Z.eqb_neq a b)) by zlia ]
  end.

Ltac bytes_ok :=
  repeat first [ apply List.Forall_nil | apply List.Forall_cons; [cbv beta; unfold is_byte; zlia|] ].

Lemma utf8_cp_roundtrip (c : Z) :
  valid_cp c ->
  exists b, utf8_encode_cp c = Some b /\ Forall is_byte b /\
    forall r, utf8_decode (b ++ r) = option_map (cons c) (utf8_decode r).
Proof.
  intros [Hc Hs]. unfold utf8_encode_cp, is_byte.
  destruct (Z.ltb_spec c 128).
  - zb. eexists; split; [reflexivity|]. split; [bytes_ok|].
    intro r. cbn [app utf8_decode]. zb. reflexivity.
  - destruct (Z.ltb_spec c 2048).
    + zb. eexists; split; [reflexivity|]. split; [bytes_ok|].
      intro r. cbn [app utf8_decode]. unfold is_cont. zb. cbn [andb].
      do 2 f_equal. zlia.
    + destruct (Z.ltb_spec c 65536).
      * zb. rewrite Hs. eexists; split; [reflexivity|].
        split; [bytes_ok|].
        intro r. cbn [app utf8_decode]. unfold is_cont.
        zb. cbn [andb].
        replace ((224 + c / 4096 - 224) * 4096 + (128 + (c / 64) mod 64 - 128) * 64
                 + (128 + c mod 64 - 128)) with c by zlia.
        rewrite Hs. zb. reflexivity.
      * zb. eexists; split; [reflexivity|]. split; [bytes_ok|].
        intro r. cbn [app utf8_decode]. unfold is_cont.
        zb. cbn [andb].
        replace ((240 + c / 262144 - 240) * 262144 + (128 + (c / 4096) mod 64 - 128) * 4096
                 + (128 + (c / 64) mod 64 - 128) * 64 + (128 + c mod 64 - 128))
          with c by zlia.
        zb. reflexivity.
Qed.

Lemma utf8_roundtrip (s : pystr) :
  Forall valid_cp s ->
  exists bs, utf8_encode s = Some bs /\ Forall is_byte bs /\ utf8_decode bs = Some s.
Proof.
  induction 1 as [|c s Hc Hs IH].
  - exists []. repeat split; constructor.
  - destruct (utf8_cp_roundtrip c Hc) as (b & Hb & Hbb & Hdec).
    destruct IH as (bs & Henc & Hbs & Hd).
    exists (b ++ bs). cbn [utf8_encode]. rewrite Hb, Henc.
    repeat split; [apply Forall_app; auto|].
    rewrite Hdec, Hd. reflexivity.
Qed.

(** *** PKCS#7 *)

Lemma pkcs7_pad_length (d : list Z) :
  length (pkcs7_pad d) = (length d + (16 - length d mod 16))%nat.
Proof. unfold pkcs7_pad. rewrite length_app, repeat_length. reflexivity. Qed.

Lemma pkcs7_pad_mod (d : list Z) : (length (pkcs7_pad d) mod 16 = 0)%nat.
Proof.
  rewrite pkcs7_pad_length.
  pose proof (Nat.mod_upper_bound (length d) 16 ltac:(lia)).
  pose proof (Nat.div_mod_eq (length d) 16).
  replace (length d + (16 - length d mod 16))%nat
    with ((length d / 16 + 1) * 16)%nat by lia.
  apply Nat.Div0.mod_mul.
Qed.

Lemma pkcs7_pad_bytes (d : list Z) : Forall is_byte d -> Forall is_byte (pkcs7_pad d).
Proof.
  intros Hd. unfold pkcs7_pad. apply Forall_app; split; [exact Hd|].
  apply Forall_forall. intros x Hx. apply list_elem_of_In, repeat_spec in Hx. subst x.
  pose proof (Nat.mod_upper_bound (length d) 16 ltac:(lia)). unfold is_byte. lia.
Qed.

Lemma last_app_repeat (d : list Z) (a : Z) (m : nat) :
  (0 < m)%nat -> List.last (d ++ repeat a m) 0 = a.
Proof.
  intros Hm. destruct m as [|m]; [lia|]. cbn [repeat].
  rewrite repeat_cons, app_assoc, List.last_last. reflexivity.
Qed.

Lemma pkcs7_roundtrip (d : list Z) : pkcs7_unpad (pkcs7_pad d) = Some d.
Proof.
  pose proof (Nat.mod_upper_bound (length d) 16 ltac:(lia)) as Hb.
  set (n := (16 - length d mod 16)%nat).
  assert (Hn : (1 <= n <= 16)%nat) by (unfold n; lia).
  unfold pkcs7_unpad. rewrite pkcs7_pad_mod, pkcs7_pad_length. fold n.
  replace ((length d + n =? 0)%nat) with false by (symmetry; apply Nat.eqb_neq; lia).
  cbn [orb negb Nat.eqb].
  assert (Hl : List.last (pkcs7_pad d) 0 = Z.of_nat n).
  { unfold pkcs7_pad. fold n. apply last_app_repeat. lia. }
  rewrite Hl. rewrite Nat2Z.id.
  replace (length d + n - n)%nat with (length d) by lia.
  unfold pkcs7_pad. fold n.
  rewrite skipn_app, Nat.sub_diag, skipn_all, skipn_O, firstn_app, Nat.sub_diag,
    firstn_O, firstn_all, app_nil_r.
  simpl app.
  replace (0 <? Z.of_nat n) with true by (symmetry; apply Z.ltb_lt; lia).
  replace (Z.of_nat n <=? 16) with true by (symmetry; apply Z.leb_le; lia).
  replace (forallb (fun b => b =? Z.of_nat n) (repeat (Z.of_nat n) n)) with true.
  - reflexivity.
  - symmetry. apply forallb_forall. intros x Hx. apply repeat_spec in Hx.
    subst x. apply Z.eqb_refl.
Qed.

(** *** Block chaining *)

Lemma lxor_byte (a b : Z) : is_byte a -> is_byte b -> is_byte (Z.lxor a b).
Proof.
  unfold is_byte. intros Ha Hb.
  assert (Hlog : forall x, 0 <= x < 256 -> Z.log2 x < 8).
  { intros x Hx. destruct (Z.eq_dec x 0) as [->|Hx0]; [reflexivity|].
    apply (proj1 (Z.log2_lt_pow2 x 8 ltac:(lia))). lia. }
  split; [apply Z.lxor_nonneg; lia|].
  destruct (Z.lt_ge_cases 0 (Z.lxor a b)) as [Hp|Hp]; [|lia].
  change 256 with (2 ^ 8). apply (proj2 (Z.log2_lt_pow2 _ 8 Hp)).
  eapply Z.le_lt_trans; [apply Z.log2_lxor; lia|].
  apply Z.max_lub_lt; apply Hlog; lia.
Qed.

Lemma xor_block_length (a b : list Z) :
  length (xor_block a b) = Nat.min (length a) (length b).
Proof. unfold xor_block. apply length_zip_with. Qed.

Lemma xor_block_bytes (a b : list Z) :
  Forall is_byte a -> Forall is_byte b -> Forall is_byte (xor_block a b).
Proof.
  intros Ha. revert b. induction Ha as [|x a Hx Ha IH]; intros [|y b] Hb;
    try apply List.Forall_nil.
  change (Forall is_byte (Z.lxor x y :: xor_block a b)).
  inversion Hb; subst.
  apply List.Forall_cons; [apply lxor_byte; assumption | apply IH; assumption].
Qed.

Lemma xor_block_involutive (a p : list Z) :
  length a = length p -> xor_block (xor_block a p) p = a.
Proof.
  revert p. induction a as [|x a IH]; intros [|y p] Hl; cbn in *;
    try reflexivity; try discriminate.
  rewrite Z.lxor_assoc, Z.lxor_nilpotent, Z.lxor_0_r. f_equal. apply IH. lia.
Qed.

Lemma take_drop_16 (c r : list Z) :
  length c = 16%nat -> firstn 16 (c ++ r) = c /\ skipn 16 (c ++ r) = r.
Proof.
  intros Hc. rewrite <- Hc. split; [apply take_app_length | apply drop_app_length].
Qed.

Section CbcRoundtrip.
Context `{Aes256}.
Hypothesis Hinv : block_inverse.

Lemma cbc_blocks_roundtrip (n : nat) :
  forall prev data,
    length prev = 16%nat -> Forall is_byte prev ->
    length data = (16 * n)%nat -> Forall is_byte data ->
    length (cbc_encrypt_blocks n prev data) = (16 * n)%nat /\
    Forall is_byte (cbc_encrypt_blocks n prev data) /\
    cbc_decrypt_blocks n prev (cbc_encrypt_blocks n prev data) = data.
Proof.
  induction n as [|n IH]; intros prev data Hp Hpb Hd Hdb.
  - destruct data; [|cbn in Hd; lia]. repeat split; constructor.
  - cbn [cbc_encrypt_blocks cbc_decrypt_blocks].
    set (x := xor_block (firstn 16 data) prev).
    assert (Hx : length x = 16%nat)
      by (unfold x; rewrite xor_block_length, length_take; lia).
    assert (Hxb : Forall is_byte x)
      by (apply xor_block_bytes; [apply Forall_take|]; assumption).
    destruct (Hinv x Hx Hxb) as (Hc & Hcb & Hdc).
    set (c := aes_encrypt_block x) in *.
    destruct (IH c (skipn 16 data) Hc Hcb ltac:(rewrite length_drop; lia)
                 ltac:(apply Forall_drop; assumption)) as (Hl & Hb & Hr).
    destruct (take_drop_16 c (cbc_encrypt_blocks n c (skipn 16 data)) Hc) as [Ht Hdr].
    rewrite Ht, Hdr, Hdc, Hr. repeat split.
    + rewrite length_app. lia.
    + apply Forall_app; split; assumption.
    + unfold x. rewrite xor_block_involutive; [apply firstn_skipn|].
      rewrite length_take. lia.
Qed.

Lemma iv_ok : length ENCRYPTION_IV = 16%nat /\ Forall is_byte ENCRYPTION_IV.
Proof.
  assert (E : ENCRYPTION_IV = [49; 50; 51; 52; 53; 54; 55; 56; 57; 48; 49; 50; 51; 52; 53; 54])
    by reflexivity.
  rewrite E. split; [reflexivity|]. bytes_ok.
Qed.

Lemma cbc_roundtrip (data : list Z) :
  (length data mod 16 = 0)%nat -> (0 < length data)%nat -> Forall is_byte data ->
  exists e, cbc_encrypt data = Some e /\ Forall is_byte e /\ e <> [] /\
            cbc_decrypt e = Some data.
Proof.
  intros Hm Hpos Hb. unfold cbc_encrypt, cbc_decrypt. rewrite Hm. cbn [Nat.eqb].
  set (n := (length data / 16)%nat).
  assert (Hd : length data = (16 * n)%nat)
    by (pose proof (Nat.div_mod_eq (length data) 16); unfold n; lia).
  destruct iv_ok as [Hiv Hivb].
  destruct (cbc_blocks_roundtrip n ENCRYPTION_IV data Hiv Hivb Hd Hb) as (Hl & Hbe & Hr).
  eexists; split; [reflexivity|]. split; [exact Hbe|]. split.
  - intros E. rewrite E in Hl. cbn [length] in Hl. clearbody n. lia.
  - rewrite Hl.
    replace ((16 * n) mod 16)%nat with 0%nat
      by (rewrite Nat.mul_comm, Nat.Div0.mod_mul; reflexivity).
    cbn [Nat.eqb].
    replace (16 * n / 16)%nat with n by (rewrite Nat.mul_comm, Nat.div_mul; lia).
    rewrite Hr. reflexivity.
Qed.

End CbcRoundtrip.

(** *** Base64 *)

Lemma b64_char_index (v : Z) : 0 <= v < 64 -> b64_index (b64_char v) = Some v.
Proof.
  intros Hv. unfold b64_char.
  destruct (Z.ltb_spec v 26); [unfold b64_index; zb; cbn [andb]; f_equal; lia|].
  destruct (Z.ltb_spec v 52); [unfold b64_index; zb; cbn [andb]; f_equal; lia|].
  destruct (Z.ltb_spec v 62); [unfold b64_index; zb; cbn [andb]; f_equal; lia|].
  destruct (Z.eqb_spec v 62); [subst; reflexivity|].
  replace v with 63 by lia. reflexivity.
Qed.

Lemma b64_char_not_pad (v : Z) : 0 <= v < 64 -> (b64_char v =? 61) = false.
Proof.
  intros Hv. apply Z.eqb_neq. unfold b64_char.
  destruct (Z.ltb_spec v 26); [lia|].
  destruct (Z.ltb_spec v 52); [lia|].
  destruct (Z.ltb_spec v 62); [lia|].
  destruct (Z.eqb_spec v 62); lia.
Qed.

Lemma b64_recombine (n : Z) :
  0 <= n < 16777216 ->
  n / 262144 * 262144 + (n / 4096) mod 64 * 4096 + (n / 64) mod 64 * 64 + n mod 64 = n.
Proof. intros. zlia. Qed.

Lemma b64_split (b0 b1 b2 : Z) :
  is_byte b0 -> is_byte b1 -> is_byte b2 ->
  (b0 * 65536 + b1 * 256 + b2) / 65536 = b0 /\
  ((b0 * 65536 + b1 * 256 + b2) / 256) mod 256 = b1 /\
  (b0 * 65536 + b1 * 256 + b2) mod 256 = b2.
Proof. unfold is_byte. intros. repeat split; zlia. Qed.

Ltac b64_step :=
  cbn [b64encode app b64decode];
  rewrite ?b64_char_index by zlia;
  rewrite ?b64_char_not_pad by zlia;
  cbn -[Z.div Z.modulo Z.mul Z.add].

Lemma b64_roundtrip_len (k : nat) :
  forall bs, (length bs <= k)%nat -> Forall is_byte bs ->
  b64decode (b64encode bs) = Some bs.
Proof.
  induction k as [|k IH]; intros bs Hl Hb.
  - destruct bs; [reflexivity | cbn in Hl; lia].
  - destruct bs as [|b0 [|b1 [|b2 r]]]; [reflexivity| | |].
    + apply Forall_cons in Hb as [H0 _]. unfold is_byte in H0.
      b64_step. f_equal. f_equal. zlia.
    + apply Forall_cons in Hb as [H0 Hb]. apply Forall_cons in Hb as [H1 _].
      unfold is_byte in H0, H1.
      b64_step.
      b64_step. f_equal. f_equal; [|f_equal]; zlia.
    + apply Forall_cons in Hb as [H0 Hb]. apply Forall_cons in Hb as [H1 Hb].
      apply Forall_cons in Hb as [H2 Hr].
      pose proof (b64_split b0 b1 b2 H0 H1 H2) as (E0 & E1 & E2).
      unfold is_byte in H0, H1, H2.
      b64_step.
      rewrite (b64_recombine (b0 * 65536 + b1 * 256 + b2)) by lia.
      rewrite E0, E1, E2, IH; [reflexivity| |exact Hr]. cbn in Hl. lia.
Qed.

Lemma b64_roundtrip (bs : list Z) :
  Forall is_byte bs -> b64decode (b64encode bs) = Some bs.
Proof. apply (b64_roundtrip_len (length bs)). lia. Qed.

Lemma b64encode_nonempty (bs : list Z) : bs <> [] -> b64encode bs <> [].
Proof. destruct bs as [|b0 [|b1 [|b2 r]]]; cbn; congruence. Qed.


Lemma valid_str_of_bool (s : pystr) :
  forallb (fun c => (0 <=? c) && (c <? 1114112) && negb (is_surrogate c)) s = true ->
  Forall valid_cp s.
Proof.
  induction s as [|c s IH]; cbn; intros Hs; constructor.
  - apply andb_prop in Hs as [Hc _]. apply andb_prop in Hc as [Hc Hsur].
    apply andb_prop in Hc as [H0 H1].
    split; [split; [apply Z.leb_le | apply Z.ltb_lt]; assumption|].
    destruct (is_surrogate c); [discriminate|reflexivity].
  - apply andb_prop in Hs as [_ Hs]. apply IH, Hs.
Qed.

Lemma xor_key_cipher_inverse : @block_inverse xor_key_cipher.
Proof.
  intros b Hl Hb. cbn [aes_encrypt_block aes_decrypt_block xor_key_cipher].
  assert (Hk : length (firstn 16 ENCRYPTION_KEY) = 16%nat) by reflexivity.
  assert (Hkb : Forall is_byte (firstn 16 ENCRYPTION_KEY)).
  { assert (E : firstn 16 ENCRYPTION_KEY
                = [49; 50; 51; 52; 53; 54; 55; 56; 57; 48; 49; 50; 51; 52; 53; 54])
      by reflexivity.
    rewrite E. bytes_ok. }
  split; [rewrite xor_block_length; lia|]. split.
  - apply xor_block_bytes; assumption.
  - apply xor_block_involutive. lia.
Qed.

(** C2 as stated fails at the empty plaintext: [encrypt_connection_string("")]
    is [""], and [decrypt_connection_string("")] returns [None]. *)
Lemma decrypt_encrypt_empty_counterexample :
  ~ (forall p : pystr, exists c,
        @encrypt_connection_string xor_key_cipher p = Some c /\
        @decrypt_connection_string xor_key_cipher c = Some p).
Proof.
  intros H. destruct (H []) as (c & Ec & Dc).
  cbv in Ec. injection Ec as <-. cbv in Dc. discriminate Dc.
Qed.

(** C2 (amended): [encrypt_connection_string("") == ""] and
    [decrypt_connection_string("")] is [None]; every non-empty plaintext
    made of Unicode scalar values encrypts to a string that decrypts back
    to it, for any AES block primitive with its inverse. *)
Theorem encrypt_decrypt_roundtrip `{Aes256} :
  block_inverse ->
  encrypt_connection_string [] = Some [] /\
  decrypt_connection_string [] = None /\
  (forall p : pystr, p <> [] -> Forall valid_cp p ->
     exists c, encrypt_connection_string p = Some c /\
               decrypt_connection_string c = Some p).
Proof.
  intros Hinv. split; [reflexivity|]. split; [reflexivity|].
  intros p Hp Hv.
  destruct (utf8_roundtrip p Hv) as (bs & Henc & Hbb & Hdec).
  assert (Hpos : (0 < length (pkcs7_pad bs))%nat)
    by (rewrite pkcs7_pad_length;
        pose proof (Nat.mod_upper_bound (length bs) 16 ltac:(lia)); lia).
  destruct (cbc_roundtrip Hinv (pkcs7_pad bs) (pkcs7_pad_mod bs) Hpos
              (pkcs7_pad_bytes bs Hbb)) as (e & Hce & Heb & Hne & Hcd).
  exists (b64encode e). split.
  - unfold encrypt_connection_string.
    destruct p as [|c p']; [congruence|]. cbn [is_empty].
    rewrite Henc, Hce. reflexivity.
  - unfold decrypt_connection_string.
    destruct (b64encode e) as [|ch rest] eqn:Eb;
      [exfalso; exact (b64encode_nonempty e Hne Eb)|].
    cbn [is_empty]. rewrite <- Eb, b64_roundtrip by exact Heb.
    rewrite Hcd, pkcs7_roundtrip. exact Hdec.
Qed.

Lemma encrypt_decrypt_roundtrip_witness :
  exists c, @encrypt_connection_string xor_key_cipher (pys "secret1") = Some c /\
            @decrypt_connection_string xor_key_cipher c = Some (pys "secret1").
Proof.
  apply (proj2 (proj2 (@encrypt_decrypt_roundtrip xor_key_cipher xor_key_cipher_inverse))).
  - discriminate.
  - apply valid_str_of_bool. reflexivity.
Defined.

End CryptoFacts.

Module SlugFacts.
Import Model Lib Slug.

(** The [counter]-th candidate of the loop: [base_slug] itself, then
    [f"{base_slug}-{counter}"]. *)
Definition candidate (base : pystr) (k : nat) : pystr :=
  match k with O => base | _ => base ++ [45] ++ str_nat k end.

Lemma uint_digits_inj (u v : Decimal.uint) : uint_digits u = uint_digits v -> u = v.
Proof.
  revert v. induction u; destruct v; cbn; intros E;
    try discriminate; try reflexivity; injection E as E; f_equal; auto.
Qed.

Lemma str_nat_inj (n m : nat) : str_nat n = str_nat m -> n = m.
Proof.
  unfold str_nat. intros E. apply DecimalNat.Unsigned.to_uint_inj, uint_digits_inj, E.
Qed.

Lemma candidate_inj (base : pystr) (i j : nat) : candidate base i = candidate base j -> i = j.
Proof.
  destruct i as [|i], j as [|j]; cbn [candidate]; intros E; try reflexivity.
  - apply (f_equal (@length Z)) in E. rewrite !length_app in E. cbn in E. lia.
  - apply (f_equal (@length Z)) in E. rewrite !length_app in E. cbn in E. lia.
  - apply app_inv_head in E. injection E as E. apply str_nat_inj in E. lia.
Qed.

Lemma NoDup_map_injective {A B} (f : A -> B) (l : list A) :
  (forall x y, f x = f y -> x = y) -> List.NoDup l -> List.NoDup (map f l).
Proof.
  intros Hf Hl. induction Hl as [|x l Hx Hl IH]; cbn; constructor; [|exact IH].
  intros Hin. apply in_map_iff in Hin as (y & Hy & Hyl).
  apply Hf in Hy. subst y. contradiction.
Qed.

Lemma forallb_false_exists {A} (f : A -> bool) (l : list A) :
  forallb f l = false -> exists x, In x l /\ f x = false.
Proof.
  induction l as [|x l IH]; cbn; [discriminate|].
  destruct (f x) eqn:Ex; cbn; intros H.
  - destruct (IH H) as (y & Hy & Hfy). exists y. auto.
  - exists x. auto.
Qed.

Lemma slug_taken_in (db : list Database) (s : pystr) :
  slug_taken db s = true -> In s (map slug db).
Proof.
  unfold slug_taken. intros H. apply existsb_exists in H as (d & Hd & Hs).
  apply bool_decide_eq_true in Hs. subst s. apply in_map, Hd.
Qed.

(** Among the first [length db + 1] candidates one is free. *)
Lemma free_candidate (db : list Database) (base : pystr) :
  exists i, (i < S (length db))%nat /\ slug_taken db (candidate base i) = false.
Proof.
  destruct (forallb (fun i => slug_taken db (candidate base i)) (seq 0 (S (length db))))
    eqn:E.
  - exfalso.
    assert (Hnd : List.NoDup (map (candidate base) (seq 0 (S (length db))))).
    { apply NoDup_map_injective; [apply candidate_inj | apply seq_NoDup]. }
    assert (Hinc : incl (map (candidate base) (seq 0 (S (length db)))) (map slug db)).
    { intros s Hs. apply in_map_iff in Hs as (i & <- & Hi).
      apply slug_taken_in. rewrite forallb_forall in E. apply E, Hi. }
    pose proof (NoDup_incl_length Hnd Hinc) as Hlen.
    rewrite !length_map, length_seq in Hlen. lia.
  - apply forallb_false_exists in E as (i & Hi & Hf).
    apply in_seq in Hi. exists i. split; [lia | exact Hf].
Qed.

Lemma unique_slug_loop_spec (db : list Database) (base : pystr) (f : nat) :
  forall j,
  (exists i, (j <= i < j + f)%nat /\ slug_taken db (candidate base i) = false) ->
  exists i, (j <= i)%nat /\
    unique_slug_loop f db base (candidate base j) (S j) = Some (candidate base i) /\
    slug_taken db (candidate base i) = false /\
    (forall i', (j <= i' < i)%nat -> slug_taken db (candidate base i') = true).
Proof.
  induction f as [|f IH]; intros j (i & Hi & Hf); [lia|].
  cbn [unique_slug_loop]. destruct (slug_taken db (candidate base j)) eqn:Ej.
  - assert (i <> j) by (intros ->; congruence).
    destruct (IH (S j) ltac:(exists i; split; [lia | exact Hf]))
      as (k & Hk & Hl & Hfk & Hall).
    exists k. split; [lia|]. split; [exact Hl|]. split; [exact Hfk|].
    intros i' Hi'. destruct (Nat.eq_dec i' j) as [->|Hne]; [exact Ej | apply Hall; lia].
  - exists j. split; [lia|]. split; [reflexivity|]. split; [exact Ej|]. lia.
Qed.

(** C4, slug part: the resolver's loop stops with a free slug, [base_slug]
    when it is free, else the first free [base_slug-k], k = 1, 2, ... *)
Lemma generate_unique_slug_free `{PyLib} (name : pystr) (db : list Database) :
  exists s, generate_unique_slug name db = Some s /\
    slug_taken db s = false /\
    (slug_taken db (generate_slug name) = false -> s = generate_slug name) /\
    (slug_taken db (generate_slug name) = true ->
       exists k, (1 <= k)%nat /\ s = generate_slug name ++ [45] ++ str_nat k /\
         forall j, (1 <= j < k)%nat ->
           slug_taken db (generate_slug name ++ [45] ++ str_nat j) = true).
Proof.
  set (base := generate_slug name).
  destruct (unique_slug_loop_spec db base (S (length db)) 0)
    as (i & _ & Hl & Hf & Hall).
  { destruct (free_candidate db base) as (i & Hi & Hf). exists i. split; [lia | exact Hf]. }
  exists (candidate base i). split; [exact Hl|]. split; [exact Hf|]. split.
  - intros Hb. destruct i as [|i]; [reflexivity|].
    specialize (Hall 0%nat ltac:(lia)). cbn in Hall. congruence.
  - intros Hb. destruct i as [|i]; [cbn in Hf; congruence|].
    exists (S i). split; [lia|]. split; [reflexivity|].
    intros j Hj. destruct j as [|j]; [lia|]. apply (Hall (S j)). lia.
Qed.

Lemma sub_non_slug_symbols (b : bool) (s : pystr) :
  Forall (fun c => is_slug_char c = false) s ->
  Forall (fun c => c = 45) (sub_non_slug b s).
Proof.
  revert b. induction s as [|c s IH]; intros b Hs; cbn; [constructor|].
  apply Forall_cons in Hs as [Hc Hs]. rewrite Hc.
  destruct b; [apply IH, Hs | constructor; [reflexivity | apply IH, Hs]].
Qed.

Lemma lstrip_hyphen_all (s : pystr) : Forall (fun c => c = 45) s -> lstrip_hyphen s = [].
Proof.
  induction s as [|c s IH]; intros Hs; cbn; [reflexivity|].
  apply Forall_cons in Hs as [-> Hs]. cbn. apply IH, Hs.
Qed.

Lemma generate_slug_symbols `{PyLib} (name : pystr) :
  Forall (fun c => is_slug_char c = false) (py_lower name) -> generate_slug name = [].
Proof.
  intros Hs. unfold generate_slug, strip_hyphen.
  rewrite (lstrip_hyphen_all _ (sub_non_slug_symbols false _ Hs)). reflexivity.
Qed.

(** C4: for every name and storage state, [generate_unique_slug] returns a
    slug held by no record: [generate_slug name] when it is free, otherwise
    [generate_slug name ++ "-k"] for the least k = 1, 2, ... that is free.
    Hence once a record holding the first slug is stored, a second create
    with the same name receives a different slug. *)
Theorem generate_unique_slug_spec `{PyLib} (name : pystr) (db : list Database) :
  exists s, generate_unique_slug name db = Some s /\
    slug_taken db s = false /\
    (slug_taken db (generate_slug name) = false -> s = generate_slug name) /\
    (slug_taken db (generate_slug name) = true ->
       exists k, (1 <= k)%nat /\ s = generate_slug name ++ [45] ++ str_nat k /\
         forall j, (1 <= j < k)%nat ->
           slug_taken db (generate_slug name ++ [45] ++ str_nat j) = true) /\
    (forall d, slug d = s ->
       exists s', generate_unique_slug name (d :: db) = Some s' /\ s' <> s).
Proof.
  destruct (generate_unique_slug_free name db) as (s & Hs & Hf & Hb & Hk).
  exists s. do 4 (split; [assumption|]).
  intros d Hd. destruct (generate_unique_slug_free name (d :: db)) as (s' & Hs' & Hf' & _).
  exists s'. split; [exact Hs'|]. intros ->.
  cbn in Hf'. rewrite bool_decide_eq_true_2 in Hf' by exact Hd. discriminate.
Qed.

(** C5 does not hold: an empty name yields the empty slug, which
    [generate_unique_slug] returns as the unique key on an empty table. *)
Lemma generate_unique_slug_empty_counterexample :
  @generate_unique_slug ascii_lib [] [] = Some [].
Proof. reflexivity. Qed.

(** C5 (amended): when every character of the lowercased name lies outside
    [a-z0-9] (the empty name included), [generate_slug] gives the empty
    string and the resolver has no placeholder: it returns the empty slug
    when no record holds it, otherwise ["-k"] for the least free k >= 1. *)
Theorem generate_unique_slug_symbols `{PyLib} (name : pystr) (db : list Database) :
  Forall (fun c => is_slug_char c = false) (py_lower name) ->
  generate_slug name = [] /\
  exists s, generate_unique_slug name db = Some s /\ slug_taken db s = false /\
    (slug_taken db [] = false -> s = []) /\
    (slug_taken db [] = true ->
       exists k, (1 <= k)%nat /\ s = [45] ++ str_nat k /\
         forall j, (1 <= j < k)%nat -> slug_taken db ([45] ++ str_nat j) = true).
Proof.
  intros Hsym. pose proof (generate_slug_symbols name Hsym) as Hg.
  split; [exact Hg|].
  destruct (generate_unique_slug_free name db) as (s & Hs & Hf & Hb & Hk).
  rewrite Hg in Hb, Hk. exists s. do 3 (split; [assumption|]). exact Hk.
Qed.

Lemma generate_unique_slug_symbols_witness :
  Forall (fun c => is_slug_char c = false) (@py_lower ascii_lib (pys "!!!")) /\
  @generate_slug ascii_lib (pys "!!!") = [] /\
  exists s, @generate_unique_slug ascii_lib (pys "!!!") [] = Some s /\
    slug_taken [] s = false /\
    (slug_taken [] [] = false -> s = []) /\
    (slug_taken [] [] = true ->
       exists k, (1 <= k)%nat /\ s = [45] ++ str_nat k /\
         forall j, (1 <= j < k)%nat -> slug_taken [] ([45] ++ str_nat j) = true).
Proof.
  assert (Hsym : Forall (fun c => is_slug_char c = false) (@py_lower ascii_lib (pys "!!!"))).
  { vm_compute. repeat constructor. }
  split; [exact Hsym|]. exact (@generate_unique_slug_symbols ascii_lib (pys "!!!") [] Hsym).
Defined.

End SlugFacts.

Module ProbeFacts.
Import Lib Probe.

(** C9: the probe returns a result for every connection string and every
    outcome of the connection attempt, never an exception.  On success it
    reports success; on failure it reports [success = false], a latency and
    the message "Connection failed: " followed by the timeout text when the
    lowercased error mentions "timeout", else the authentication text when
    it mentions "authentication" or "password", else the host text when it
    mentions "host" or "connection refused", and else the raw error text. *)
Theorem test_database_connection_total `{PyLib} (c : DatabaseTestConnection)
    (outcome : option exn) (t0 t1 : Z) :
  exists r, test_database_connection c outcome t0 t1 = inr r /\
    latency_ms r = Some (t1 - t0) /\
    (outcome = None -> success r = true) /\
    (forall e, outcome = Some (Exn e) ->
      success r = false /\
      let lower := py_lower e in
      (contains (pys "timeout") lower = true ->
         message r = pys "Connection failed: " ++ timeout_message) /\
      (contains (pys "timeout") lower = false ->
       (contains (pys "authentication") lower = true \/ contains (pys "password") lower = true) ->
         message r = pys "Connection failed: " ++ auth_message) /\
      (contains (pys "timeout") lower = false ->
       contains (pys "authentication") lower = false -> contains (pys "password") lower = false ->
       (contains (pys "host") lower = true \/ contains (pys "connection refused") lower = true) ->
         message r = pys "Connection failed: " ++ host_message) /\
      (contains (pys "timeout") lower = false ->
       contains (pys "authentication") lower = false -> contains (pys "password") lower = false ->
       contains (pys "host") lower = false -> contains (pys "connection refused") lower = false ->
         message r = pys "Connection failed: " ++ e)).
Proof.
  unfold test_database_connection, try_except.
  destruct outcome as [[e]|]; eexists; (split; [reflexivity|]);
    cbn [latency_ms success message];
    (split; [reflexivity|]); (split; [intros; (discriminate || reflexivity)|]);
    intros e' He; try discriminate.
  injection He as <-. split; [reflexivity|]. unfold clean_error_message.
  repeat split.
  - intros ->. reflexivity.
  - intros -> [-> | ->]; [reflexivity|]. rewrite orb_true_r. reflexivity.
  - intros -> -> -> [-> | ->]; [reflexivity|]. rewrite orb_true_r. reflexivity.
  - intros -> -> -> -> ->. reflexivity.
Qed.

End ProbeFacts.

Module ServiceFacts.
Import Crypto Model Lib Slug Cache Service Samples.

(** ** Cache keys and the invalidation pattern *)

Lemma is_prefix_app (p r : pystr) : is_prefix p (p ++ r) = true.
Proof. induction p as [|c p IH]; cbn; [reflexivity|]. rewrite Z.eqb_refl. exact IH. Qed.

Lemma glob_star_any (k : pystr) : glob_match [42] k = true.
Proof. induction k as [|c k IH]; [reflexivity|]. cbn. exact IH. Qed.

Lemma glob_literal_star (lit k : pystr) :
  forallb (fun c => negb (c =? 42) && negb (c =? 63)) lit = true ->
  glob_match (lit ++ [42]) k = is_prefix lit k.
Proof.
  revert k. induction lit as [|c lit IH]; intros k Hl.
  - rewrite glob_star_any. reflexivity.
  - cbn in Hl. apply andb_prop in Hl as [Hc Hl]. apply andb_prop in Hc as [H42 H63].
    apply negb_true_iff in H42, H63.
    cbn [app glob_match]. rewrite H42. destruct k as [|d k]; [reflexivity|].
    cbn [is_prefix]. rewrite H63, orb_false_l, IH by exact Hl. reflexivity.
Qed.

Lemma glob_registry (k : pystr) :
  glob_match (pys "databases:*") k = is_prefix registry_prefix k.
Proof.
  change (pys "databases:*") with (registry_prefix ++ [42]).
  apply glob_literal_star. reflexivity.
Qed.

Lemma registry_key_list (skip limit : Z) :
  is_prefix registry_prefix (cache_key_database_list skip limit) = true.
Proof.
  unfold cache_key_database_list.
  change (pys "databases:list:") with (registry_prefix ++ pys "list:").
  rewrite <- app_assoc. apply is_prefix_app.
Qed.

Lemma registry_key_item (id_or_slug : pystr) :
  is_prefix registry_prefix (cache_key_database id_or_slug) = true.
Proof.
  unfold cache_key_database.
  change (pys "databases:item:") with (registry_prefix ++ pys "item:").
  rewrite <- app_assoc. apply is_prefix_app.
Qed.

(** ** What [json.dumps] accepts *)

Lemma dumps_list_error (l : list pyval) (e : pystr) :
  Exists (fun x => exists e', json_dumps x = inl e') l ->
  exists e', json_dumps (PList l) = inl e'.
Proof.
  intros Hex. cbn [json_dumps].
  induction Hex as [x l (e' & He) | x l _ IH].
  - rewrite He. eauto.
  - destruct (json_dumps x) as [e'|j]; [eauto|].
    destruct IH as (e'' & He'').
    destruct ((fix go (l0 : list pyval) : pystr + list jval :=
                match l0 with
                | [] => inr []
                | x0 :: l' =>
                    match json_dumps x0 with
                    | inl e0 => inl e0
                    | inr j0 => match go l' with inl e0 => inl e0 | inr js => inr (j0 :: js) end
                    end
                end) l) eqn:E; [eauto | discriminate].
Qed.

Lemma dumps_model_dump (r : DatabaseResponse) : exists e, json_dumps (model_dump r) = inl e.
Proof. destruct r as [? ? ? [d|] ? ? ? ?]; cbn; eauto. Qed.

(** The dump of a non-empty list of responses is never serializable. *)
Lemma dumps_response_list (rs : list DatabaseResponse) (j : jval) :
  json_dumps (PList (map model_dump rs)) = inr j -> rs = [] /\ j = JArr [].
Proof.
  destruct rs as [|r rs].
  - cbn. intros H. injection H as <-. auto.
  - intros H. exfalso.
    destruct (dumps_list_error (map model_dump (r :: rs)) [] ltac:(constructor; apply dumps_model_dump))
      as (e & He). congruence.
Qed.

(** ** The cache operations *)

Lemma foldr_delete_lookup (m : gmap pystr jval) (ks : list pystr) (k : pystr) (v : jval) :
  foldr delete m ks !! k = Some v -> m !! k = Some v.
Proof.
  induction ks as [|k' ks IH]; cbn; [auto|].
  intros H. apply lookup_delete_Some in H as [_ H]. auto.
Qed.

Lemma foldr_delete_in (m : gmap pystr jval) (ks : list pystr) (k : pystr) :
  In k ks -> foldr delete m ks !! k = None.
Proof.
  induction ks as [|k' ks IH]; cbn; [tauto|].
  intros [->|Hk]; [apply lookup_delete_eq|].
  destruct (decide (k' = k)) as [->|Hne]; [apply lookup_delete_eq|].
  rewrite lookup_delete_ne by exact Hne. auto.
Qed.

Lemma invalidate_lookup (b : backend) (c : cache_state) (k : pystr) (v : jval) :
  store (invalidate_database_cache b c) !! k = Some v -> store c !! k = Some v.
Proof.
  unfold invalidate_database_cache, delete_pattern. destruct b; cbn; [|auto].
  destruct (is_empty _); cbn; [auto|]. apply foldr_delete_lookup.
Qed.

(** When Redis answers, invalidation leaves no registry key behind. *)
Lemma invalidate_up_clears (c : cache_state) (k : pystr) :
  is_prefix registry_prefix k = true -> store (invalidate_database_cache Up c) !! k = None.
Proof.
  intros Hk. unfold invalidate_database_cache, delete_pattern. cbn [snd].
  destruct (store c !! k) as [v|] eqn:Hv.
  - assert (Hin : In k (List.filter (glob_match (pys "databases:*"))
                         (map fst (map_to_list (store c))))).
    { apply filter_In. split; [|rewrite glob_registry; exact Hk].
      apply in_map_iff. exists (k, v). split; [reflexivity|].
      apply list_elem_of_In, elem_of_map_to_list, Hv. }
    destruct (is_empty _) eqn:E.
    + destruct (List.filter _ _); [contradiction | discriminate].
    + cbn. apply foldr_delete_in, Hin.
  - destruct (is_empty _); cbn; [exact Hv|].
    destruct (foldr delete (store c) _ !! k) eqn:E; [|reflexivity].
    apply foldr_delete_lookup in E. congruence.
Qed.

(** ** The registry keys only ever hold the empty list *)

Lemma preserves_ret {A} (a : A) : preserves (ret a).
Proof. intros st H. exact H. Qed.

Lemma preserves_raise {A} (e : ApiError) : preserves (@raise A e).
Proof. intros st H. exact H. Qed.

Lemma preserves_get_db : preserves get_db.
Proof. intros st H. exact H. Qed.

Lemma preserves_put_db (db : list Database) : preserves (put_db db).
Proof. intros st H. exact H. Qed.

Lemma preserves_lift_option {A} (w : pystr) (o : option A) : preserves (lift_option w o).
Proof. destruct o; intros st H; exact H. Qed.

Lemma preserves_bind {A B} (m : M A) (f : A -> M B) :
  preserves m -> (forall a, preserves (f a)) -> preserves (bind m f).
Proof.
  intros Hm Hf st H. unfold bind. specialize (Hm st H).
  destruct (m st) as [[e|a] st']; [exact Hm | apply Hf, Hm].
Qed.

Lemma preserves_mapM {A B} (f : A -> M B) (l : list A) :
  (forall a, preserves (f a)) -> preserves (mapM f l).
Proof.
  intros Hf. induction l as [|x l IH]; cbn.
  - apply preserves_ret.
  - apply preserves_bind; [apply Hf|]. intros y.
    apply preserves_bind; [exact IH|]. intros ys. apply preserves_ret.
Qed.

Lemma preserves_get_cache (b : backend) (key : pystr) : preserves (cache_op (get_cache b key)).
Proof.
  intros [db c] H. unfold cache_op, get_cache. cbn.
  destruct b; [destruct (store c !! key)|]; exact H.
Qed.

Lemma set_cache_store (b : backend) (key : pystr) (v : pyval) (ttl : Z) (c : cache_state) :
  store (snd (set_cache b key v ttl c)) = store c \/
  exists j, json_dumps v = inr j /\ store (snd (set_cache b key v ttl c)) = <[key := j]> (store c).
Proof.
  unfold set_cache. destruct b; [|left; reflexivity].
  destruct (json_dumps v) as [e|j] eqn:E; [left; reflexivity|]. right. eauto.
Qed.

Lemma preserves_set_list (b : backend) (key : pystr) (rs : list DatabaseResponse) (ttl : Z) :
  preserves (cache_op (set_cache b key (PList (map model_dump rs)) ttl)).
Proof.
  intros [db c] H. unfold cache_op. cbn.
  destruct (set_cache b key (PList (map model_dump rs)) ttl c) as [ok c'] eqn:E. cbn.
  intros k v Hk Hp.
  destruct (set_cache_store b key (PList (map model_dump rs)) ttl c) as [Hs | (j & Hj & Hs)];
    rewrite E in Hs; cbn in Hs; rewrite Hs in Hk.
  - exact (H k v Hk Hp).
  - apply dumps_response_list in Hj as [_ ->].
    apply lookup_insert_Some in Hk as [[_ <-] | [_ Hk]]; [reflexivity | exact (H k v Hk Hp)].
Qed.

Lemma preserves_set_item (b : backend) (key : pystr) (r : DatabaseResponse) (ttl : Z) :
  preserves (cache_op (set_cache b key (model_dump r) ttl)).
Proof.
  intros [db c] H. unfold cache_op. cbn.
  destruct (set_cache b key (model_dump r) ttl c) as [ok c'] eqn:E. cbn.
  intros k v Hk Hp.
  destruct (set_cache_store b key (model_dump r) ttl c) as [Hs | (j & Hj & Hs)];
    rewrite E in Hs; cbn in Hs; rewrite Hs in Hk.
  - exact (H k v Hk Hp).
  - destruct (dumps_model_dump r) as (e & He). congruence.
Qed.

Lemma preserves_invalidate (b : backend) : preserves (invalidate b).
Proof.
  intros [db c] H k v Hk Hp. cbn in Hk.
  apply invalidate_lookup in Hk. exact (H k v Hk Hp).
Qed.

Section Preservation.
Context `{Aes256} `{PyLib}.

Lemma preserves_to_response (d : Database) : preserves (to_response d).
Proof.
  unfold to_response. apply preserves_bind; [apply preserves_lift_option|].
  intros c. apply preserves_ret.
Qed.

Lemma preserves_query_page (skip limit : Z) : preserves (query_page skip limit).
Proof.
  unfold query_page. apply preserves_bind; [apply preserves_get_db|]. intros db.
  destruct (_ || _); [apply preserves_raise | apply preserves_ret].
Qed.

Lemma preserves_get_by (x : pystr) : preserves (get_database_by_id_or_slug x).
Proof.
  unfold get_database_by_id_or_slug. apply preserves_bind; [apply preserves_get_db|]. intros db.
  apply preserves_bind.
  - destruct (uuid_parse x); [apply preserves_ret|].
    destruct (pg_text_ok x); [apply preserves_ret | apply preserves_raise].
  - intros [d|]; [apply preserves_ret | apply preserves_raise].
Qed.

Lemma preserves_validate_list (v : pyval) : preserves (validate_list v).
Proof.
  unfold validate_list. destruct v; try apply preserves_raise.
  apply preserves_mapM. intros item. apply preserves_lift_option.
Qed.

Ltac pres_step :=
  first
  [ apply preserves_ret | apply preserves_raise | apply preserves_get_db
  | apply preserves_put_db | apply preserves_lift_option | apply preserves_get_cache
  | apply preserves_set_list | apply preserves_set_item | apply preserves_invalidate
  | apply preserves_to_response | apply preserves_query_page | apply preserves_get_by
  | apply preserves_validate_list
  | apply preserves_mapM; intros ?
  | apply preserves_bind; [ | intros ? ]
  | match goal with
    | |- preserves (if ?b then _ else _) => destruct b
    | |- preserves (match ?x with _ => _ end) => destruct x
    end ].

Lemma preserves_get_databases (bg bs : backend) (skip limit : Z) :
  preserves (get_databases bg bs skip limit).
Proof. unfold get_databases. repeat pres_step. Qed.

Lemma preserves_get_database (bg bs : backend) (x : pystr) :
  preserves (get_database bg bs x).
Proof. unfold get_database. repeat pres_step. Qed.

Lemma preserves_create (bi : backend) (new_id now : Z) (din : DatabaseCreate) :
  preserves (create_database bi new_id now din).
Proof. unfold create_database. repeat pres_step. Qed.

Lemma preserves_update (bi : backend) (now : Z) (x : pystr) (din : DatabaseUpdate) :
  preserves (update_database bi now x din).
Proof. unfold update_database. repeat pres_step. Qed.

Lemma preserves_delete (bi : backend) (x : pystr) : preserves (delete_database bi x).
Proof. unfold delete_database. repeat pres_step. Qed.

Lemma reachable_cache_inv (st : St) : reachable st -> cache_inv (st_cache st).
Proof.
  induction 1 as [db c Hc | r st _ IH].
  - intros k v Hk Hp. rewrite Hc in Hk by exact Hp. discriminate.
  - destruct r; cbn [handle].
    + apply preserves_get_databases, IH.
    + apply preserves_get_database, IH.
    + apply preserves_create, IH.
    + apply preserves_update, IH.
    + apply preserves_delete, IH.
    + intros k v Hk Hp. cbn in Hk. apply lookup_delete_Some in Hk as [_ Hk]. exact (IH k v Hk Hp).
    + destruct (is_prefix registry_prefix key) eqn:Ek; [exact IH|].
      intros k v Hk Hp. cbn in Hk.
      apply lookup_insert_Some in Hk as [[<- _] | [_ Hk]]; [congruence | exact (IH k v Hk Hp)].
Qed.

End Preservation.

(** ** Closed forms of the request handlers *)

Lemma bind_inr {A B} (m : M A) (f : A -> M B) (st st' : St) (a : A) :
  m st = (inr a, st') -> bind m f st = f a st'.
Proof. intros E. unfold bind. rewrite E. reflexivity. Qed.

Lemma bind_inl {A B} (m : M A) (f : A -> M B) (st st' : St) (e : ApiError) :
  m st = (inl e, st') -> bind m f st = (inl e, st').
Proof. intros E. unfold bind. rewrite E. reflexivity. Qed.

Lemma lookup_result_in `{PyLib} (x : pystr) (db : list Database) (d : Database) :
  lookup_result x db = inr d -> In d db.
Proof.
  unfold lookup_result, find_first.
  destruct (uuid_parse x); [|destruct (pg_text_ok x); [|discriminate]];
    match goal with |- context [List.find ?p db] => destruct (List.find p db) as [d'|] eqn:E end;
    intros Hd; try discriminate; injection Hd as <-; apply find_some in E as [E _]; exact E.
Qed.

Lemma replace_by_id_in (d d' : Database) (db : list Database) :
  In d db -> id d = id d' -> In d' (replace_by_id d' db).
Proof.
  intros Hin Hid. apply in_map_iff. exists d. split; [|exact Hin].
  rewrite Hid, Z.eqb_refl. reflexivity.
Qed.

Section ClosedForms.
Context `{Aes256} `{PyLib}.

Lemma to_response_eq (d : Database) (st : St) : to_response d st = (response_result d, st).
Proof.
  unfold to_response, response_result, bind, lift_option.
  destruct (encrypt_connection_string (connection_string d)); reflexivity.
Qed.

Lemma mapM_to_response_eq (ds : list Database) (st : St) :
  mapM to_response ds st = (responses_result ds, st).
Proof.
  induction ds as [|d ds IH]; [reflexivity|]. cbn [mapM responses_result].
  unfold bind at 1. rewrite to_response_eq.
  destruct (response_result d) as [e|r]; [reflexivity|].
  unfold bind. rewrite IH. destruct (responses_result ds); reflexivity.
Qed.

Lemma query_page_eq (skip limit : Z) (st : St) :
  query_page skip limit st = (query_page_result skip limit (st_db st), st).
Proof.
  unfold query_page, query_page_result, bind, get_db.
  destruct (_ || _); reflexivity.
Qed.

Lemma get_by_eq (x : pystr) (st : St) :
  get_database_by_id_or_slug x st = (lookup_result x (st_db st), st).
Proof.
  unfold get_database_by_id_or_slug, lookup_result, bind, get_db, ret, raise.
  destruct (uuid_parse x); [|destruct (pg_text_ok x); [|reflexivity]];
    destruct (find_first _ _); reflexivity.
Qed.

Lemma invalidate_eq (b : backend) (st : St) :
  invalidate b st = (inr tt, mkSt (st_db st) (invalidate_database_cache b (st_cache st))).
Proof. reflexivity. Qed.

(** A list read whose cache lookup misses or finds a falsy value answers
    from storage and leaves the table as it is. *)
Lemma get_databases_miss (bg bs : backend) (skip limit : Z) (st : St)
    (cached : option pyval) (c1 : cache_state) :
  get_cache bg (cache_key_database_list skip limit) (st_cache st) = (cached, c1) ->
  match cached with Some v => py_truthy v = false | None => True end ->
  fst (get_databases bg bs skip limit st) = list_miss_result skip limit (st_db st) /\
  st_db (snd (get_databases bg bs skip limit st)) = st_db st.
Proof.
  intros Hg Hc. unfold get_databases.
  rewrite (bind_inr _ _ st (mkSt (st_db st) c1) cached)
    by (unfold cache_op; rewrite Hg; reflexivity).
  unfold list_miss_result.
  assert (Hmiss : forall st1, st_db st1 = st_db st ->
    fst ((databases <- query_page skip limit;;
          result <- mapM to_response databases;;
          cache_op (set_cache bs (cache_key_database_list skip limit)
                      (PList (map model_dump result)) CACHE_TTL);;;
          ret (result, MISS)) st1) =
      match query_page_result skip limit (st_db st) with
      | inl e => inl e
      | inr ds => match responses_result ds with inl e => inl e | inr rs => inr (rs, MISS) end
      end /\
    st_db (snd ((databases <- query_page skip limit;;
          result <- mapM to_response databases;;
          cache_op (set_cache bs (cache_key_database_list skip limit)
                      (PList (map model_dump result)) CACHE_TTL);;;
          ret (result, MISS)) st1)) = st_db st).
  { intros st1 Hst1.
    destruct (query_page_result skip limit (st_db st)) as [e|ds] eqn:Eq.
    { rewrite (bind_inl _ _ st1 st1 e) by (rewrite query_page_eq, Hst1, Eq; reflexivity).
      cbn; auto. }
    rewrite (bind_inr _ _ st1 st1 ds) by (rewrite query_page_eq, Hst1, Eq; reflexivity).
    destruct (responses_result ds) as [e|rs] eqn:Er.
    { rewrite (bind_inl _ _ st1 st1 e) by (rewrite mapM_to_response_eq, Er; reflexivity).
      cbn; auto. }
    rewrite (bind_inr _ _ st1 st1 rs) by (rewrite mapM_to_response_eq, Er; reflexivity).
    unfold bind, cache_op.
    destruct (set_cache _ _ _ _ _); cbn; auto. }
  destruct cached as [v|]; [rewrite Hc|]; apply Hmiss; reflexivity.
Qed.

Lemma get_database_miss (bg bs : backend) (x : pystr) (st : St)
    (cached : option pyval) (c1 : cache_state) :
  get_cache bg (cache_key_database x) (st_cache st) = (cached, c1) ->
  match cached with Some v => py_truthy v = false | None => True end ->
  fst (get_database bg bs x st) = item_miss_result x (st_db st) /\
  st_db (snd (get_database bg bs x st)) = st_db st.
Proof.
  intros Hg Hc. unfold get_database.
  rewrite (bind_inr _ _ st (mkSt (st_db st) c1) cached)
    by (unfold cache_op; rewrite Hg; reflexivity).
  cbv zeta. unfold item_miss_result.
  assert (Hmiss : forall st1, st_db st1 = st_db st ->
    fst ((database <- get_database_by_id_or_slug x;;
          result <- to_response database;;
          cache_op (set_cache bs (cache_key_database x) (model_dump result) CACHE_TTL);;;
          ret (result, MISS)) st1) =
      match lookup_result x (st_db st) with
      | inl e => inl e
      | inr d => match response_result d with inl e => inl e | inr r => inr (r, MISS) end
      end /\
    st_db (snd ((database <- get_database_by_id_or_slug x;;
          result <- to_response database;;
          cache_op (set_cache bs (cache_key_database x) (model_dump result) CACHE_TTL);;;
          ret (result, MISS)) st1)) = st_db st).
  { intros st1 Hst1.
    destruct (lookup_result x (st_db st)) as [e|d] eqn:Eq.
    { rewrite (bind_inl _ _ st1 st1 e) by (rewrite get_by_eq, Hst1, Eq; reflexivity).
      cbn; auto. }
    rewrite (bind_inr _ _ st1 st1 d) by (rewrite get_by_eq, Hst1, Eq; reflexivity).
    destruct (response_result d) as [e|r] eqn:Er.
    { rewrite (bind_inl _ _ st1 st1 e) by (rewrite to_response_eq, Er; reflexivity).
      cbn; auto. }
    rewrite (bind_inr _ _ st1 st1 r) by (rewrite to_response_eq, Er; reflexivity).
    unfold bind, cache_op.
    destruct (set_cache _ _ _ _ _); cbn; auto. }
  destruct cached as [v|]; [rewrite Hc|]; apply Hmiss; reflexivity.
Qed.

(** Under the cache invariant no registry read ever finds a truthy value. *)
Lemma get_cache_registry (b : backend) (key : pystr) (c : cache_state) :
  cache_inv c -> is_prefix registry_prefix key = true ->
  match fst (get_cache b key c) with Some v => py_truthy v = false | None => True end.
Proof.
  intros Hinv Hk. unfold get_cache. destruct b; cbn; [|exact I].
  destruct (store c !! key) as [v|] eqn:Hv; cbn; [|exact I].
  rewrite (Hinv key v Hv Hk). reflexivity.
Qed.

Lemma create_shape (bi : backend) (nid now : Z) (din : DatabaseCreate) (st : St) :
  (exists e, create_database bi nid now din st = (inl e, st)) \/
  exists d, generate_unique_slug (c_name din) (st_db st) = Some (slug d) /\
    slug_taken (st_db st) (slug d) = false /\ row_ok d = true /\
    id_taken (st_db st) nid = false /\
    d = mkDatabase nid (c_name din) (slug d) (c_type din) (c_connection_string din)
          (c_description din) (c_status din) now now /\
    create_database bi nid now din st =
      (response_result d, mkSt (st_db st ++ [d]) (invalidate_database_cache bi (st_cache st))).
Proof.
  unfold create_database. rewrite (bind_inr get_db _ st st (st_db st)) by reflexivity.
  destruct (generate_unique_slug (c_name din) (st_db st)) as [sl|] eqn:Eg.
  2: { left. eexists. apply bind_inl. reflexivity. }
  rewrite (bind_inr _ _ st st sl) by reflexivity.
  destruct (slug_taken (st_db st) sl) eqn:Et; [left; eexists; reflexivity|].
  destruct (row_ok _ && negb _) eqn:Ec; [|left; eexists; reflexivity].
  apply andb_prop in Ec as [Hr Hi]. apply negb_true_iff in Hi.
  right. eexists (mkDatabase nid (c_name din) sl (c_type din) (c_connection_string din)
                    (c_description din) (c_status din) now now).
  cbn [slug]. do 5 (split; [assumption || reflexivity|]).
  rewrite (bind_inr (put_db _) _ st _ tt) by reflexivity.
  rewrite (bind_inr (invalidate bi) _ _ _ tt) by reflexivity.
  apply to_response_eq.
Qed.

Lemma update_shape (bi : backend) (now : Z) (x : pystr) (din : DatabaseUpdate) (st : St) :
  (exists e, update_database bi now x din st = (inl e, st)) \/
  exists d d', lookup_result x (st_db st) = inr d /\
    pick (u_name din) (name d) = Some (name d') /\
    pick (u_type din) (type d) = Some (type d') /\
    pick (u_connection_string din) (connection_string d) = Some (connection_string d') /\
    description d' = match u_description din with Unset => description d | SetTo v => v end /\
    pick (u_status din) (status d) = Some (status d') /\
    id d' = id d /\ slug d' = slug d /\ created_at d' = created_at d /\
    ((name d' = name d /\ type d' = type d /\ connection_string d' = connection_string d /\
      description d' = description d /\ status d' = status d /\ d' = d /\
      update_database bi now x din st =
        (response_result d, mkSt (st_db st) (invalidate_database_cache bi (st_cache st)))) \/
     (~ (name d' = name d /\ type d' = type d /\ connection_string d' = connection_string d /\
         description d' = description d /\ status d' = status d) /\
      updated_at d' = now /\ row_ok d' = true /\
      update_database bi now x din st =
        (response_result d', mkSt (replace_by_id d' (st_db st))
                               (invalidate_database_cache bi (st_cache st))))).
Proof.
  unfold update_database. destruct (lookup_result x (st_db st)) as [e|d] eqn:Hl.
  { left. exists e. apply bind_inl. rewrite get_by_eq, Hl. reflexivity. }
  rewrite (bind_inr _ _ st st d) by (rewrite get_by_eq, Hl; reflexivity). cbv zeta.
  destruct (bool_decide (pick (u_name din) (name d) = Some (name d))
            && bool_decide (pick (u_type din) (type d) = Some (type d))
            && bool_decide (pick (u_connection_string din) (connection_string d)
                            = Some (connection_string d))
            && bool_decide (match u_description din with
                            | Unset => description d | SetTo v => v end = description d)
            && bool_decide (pick (u_status din) (status d) = Some (status d))) eqn:Hu.
  - repeat match goal with H : _ && _ = true |- _ => apply andb_prop in H as [H ?] end.
    repeat match goal with H : bool_decide _ = true |- _ => apply bool_decide_eq_true in H end.
    right. exists d, d. do 9 (split; [first [assumption | symmetry; assumption | reflexivity]|]).
    left. do 6 (split; [reflexivity|]).
    rewrite (bind_inr (invalidate bi) _ _ _ tt) by reflexivity. apply to_response_eq.
  - destruct (pick (u_name din) (name d)) as [n|] eqn:En; [|left; eexists; reflexivity].
    destruct (pick (u_type din) (type d)) as [t|] eqn:Et; [|left; eexists; reflexivity].
    destruct (pick (u_connection_string din) (connection_string d)) as [c|] eqn:Ec;
      [|left; eexists; reflexivity].
    destruct (pick (u_status din) (status d)) as [s|] eqn:Es; [|left; eexists; reflexivity].
    set (d' := mkDatabase (id d) n (slug d) t c
                 match u_description din with Unset => description d | SetTo v => v end
                 s (created_at d) now).
    destruct (row_ok d') eqn:Hr; [|left; eexists; reflexivity].
    right. exists d, d'. do 9 (split; [first [reflexivity | assumption]|]).
    right. split.
    + intros (E1 & E2 & E3 & E4 & E5). cbn in E1, E2, E3, E4, E5. subst n t c s.
      rewrite E4, !bool_decide_eq_true_2 in Hu by reflexivity. discriminate.
    + split; [reflexivity|]. split; [exact Hr|].
      rewrite (bind_inr get_db _ st st (st_db st)) by reflexivity.
      rewrite (bind_inr (put_db _) _ st _ tt) by reflexivity.
      rewrite (bind_inr (invalidate bi) _ _ _ tt) by reflexivity.
      apply to_response_eq.
Qed.

Lemma delete_shape (bi : backend) (x : pystr) (st : St) :
  (exists e, lookup_result x (st_db st) = inl e /\ delete_database bi x st = (inl e, st)) \/
  exists d, lookup_result x (st_db st) = inr d /\
    delete_database bi x st =
      (inr tt, mkSt (List.filter (fun d' => negb (id d' =? id d)) (st_db st))
                 (invalidate_database_cache bi (st_cache st))).
Proof.
  unfold delete_database. destruct (lookup_result x (st_db st)) as [e|d] eqn:Hl.
  { left. exists e. split; [reflexivity|]. apply bind_inl. rewrite get_by_eq, Hl. reflexivity. }
  rewrite (bind_inr _ _ st st d) by (rewrite get_by_eq, Hl; reflexivity).
  right. exists d. split; [reflexivity|].
  rewrite (bind_inr get_db _ st st (st_db st)) by reflexivity.
  rewrite (bind_inr (put_db _) _ st _ tt) by reflexivity.
  reflexivity.
Qed.

End ClosedForms.

Section Claims.
Context `{Aes256} `{PyLib}.

Lemma response_result_spec (d : Database) (r : DatabaseResponse) :
  response_result d = inr r ->
  r_id r = id d /\ encrypt_connection_string (connection_string d) = Some (r_connection_string r).
Proof.
  unfold response_result. destruct (encrypt_connection_string _) as [c|]; [|discriminate].
  intros E. injection E as <-. auto.
Qed.

Lemma responses_result_spec (ds : list Database) (rs : list DatabaseResponse) :
  responses_result ds = inr rs ->
  Forall2 (fun d r => r_id r = id d /\
             encrypt_connection_string (connection_string d) = Some (r_connection_string r)) ds rs.
Proof.
  revert rs. induction ds as [|d ds IH]; intros rs; cbn.
  - intros E. injection E as <-. constructor.
  - destruct (response_result d) as [e|r] eqn:Ed; [discriminate|].
    destruct (responses_result ds) as [e|rs'] eqn:Es; [discriminate|].
    intros E. injection E as <-. constructor; [apply response_result_spec, Ed | apply IH; reflexivity].
Qed.

Lemma list_miss_result_spec (skip limit : Z) (db : list Database) rs cs :
  list_miss_result skip limit db = inr (rs, cs) ->
  cs = MISS /\ exists ds, query_page_result skip limit db = inr ds /\
    Forall2 (fun d r => r_id r = id d /\
               encrypt_connection_string (connection_string d) = Some (r_connection_string r)) ds rs.
Proof.
  unfold list_miss_result. destruct (query_page_result skip limit db) as [e|ds]; [discriminate|].
  destruct (responses_result ds) as [e|rs'] eqn:E; [discriminate|].
  intros H'. injection H' as <- <-. split; [reflexivity|]. exists ds. split; [reflexivity|].
  apply responses_result_spec, E.
Qed.

Lemma item_miss_result_spec (x : pystr) (db : list Database) r cs :
  item_miss_result x db = inr (r, cs) ->
  cs = MISS /\ exists d, lookup_result x db = inr d /\ In d db /\ r_id r = id d /\
    encrypt_connection_string (connection_string d) = Some (r_connection_string r).
Proof.
  unfold item_miss_result. destruct (lookup_result x db) as [e|d] eqn:El; [discriminate|].
  destruct (response_result d) as [e|r'] eqn:E; [discriminate|].
  intros H'. injection H' as <- <-. split; [reflexivity|]. exists d.
  split; [reflexivity|]. split; [apply (lookup_result_in x), El|]. apply response_result_spec, E.
Qed.

Lemma reachable_list_miss (st : St) (bg bs : backend) (skip limit : Z) :
  reachable st ->
  fst (get_databases bg bs skip limit st) = list_miss_result skip limit (st_db st).
Proof.
  intros Hr. pose proof (reachable_cache_inv st Hr) as Hinv.
  pose proof (get_cache_registry bg _ _ Hinv (registry_key_list skip limit)) as Hc.
  destruct (get_cache bg (cache_key_database_list skip limit) (st_cache st)) as [cached c1] eqn:Hg.
  apply (get_databases_miss bg bs skip limit st cached c1 Hg Hc).
Qed.

Lemma reachable_item_miss (st : St) (bg bs : backend) (x : pystr) :
  reachable st -> fst (get_database bg bs x st) = item_miss_result x (st_db st).
Proof.
  intros Hr. pose proof (reachable_cache_inv st Hr) as Hinv.
  pose proof (get_cache_registry bg _ _ Hinv (registry_key_item x)) as Hc.
  destruct (get_cache bg (cache_key_database x) (st_cache st)) as [cached c1] eqn:Hg.
  apply (get_database_miss bg bs x st cached c1 Hg Hc).
Qed.

Lemma fresh_after_invalidate (db : list Database) (c : cache_state) :
  registry_fresh (mkSt db (invalidate_database_cache Up c)).
Proof.
  assert (Hk : forall k, is_prefix registry_prefix k = true ->
                 store (invalidate_database_cache Up c) !! k = None)
    by (intros k Hk; apply invalidate_up_clears, Hk).
  split; [exact Hk|]. split.
  - intros bs skip limit.
    destruct (get_cache Up (cache_key_database_list skip limit) (invalidate_database_cache Up c))
      as [cached c1] eqn:Hg.
    apply (get_databases_miss Up bs skip limit (mkSt db _) cached c1 Hg).
    revert Hg. cbn [st_cache get_cache]. rewrite (Hk _ (registry_key_list skip limit)).
    intros E. injection E as <- _. exact I.
  - intros bs x.
    destruct (get_cache Up (cache_key_database x) (invalidate_database_cache Up c))
      as [cached c1] eqn:Hg.
    apply (get_database_miss Up bs x (mkSt db _) cached c1 Hg).
    revert Hg. cbn [st_cache get_cache]. rewrite (Hk _ (registry_key_item x)).
    intros E. injection E as <- _. exact I.
Qed.

Lemma get_databases_set_indep (bg bs bs' : backend) (skip limit : Z) (st : St) :
  fst (get_databases bg bs skip limit st) = fst (get_databases bg bs' skip limit st) /\
  st_db (snd (get_databases bg bs skip limit st)) = st_db (snd (get_databases bg bs' skip limit st)).
Proof.
  destruct (get_cache bg (cache_key_database_list skip limit) (st_cache st)) as [cached c1] eqn:Hg.
  destruct cached as [v|]; [destruct (py_truthy v) eqn:Ht|].
  - unfold get_databases.
    rewrite !(bind_inr _ _ st (mkSt (st_db st) c1) (Some v)) by (unfold cache_op; rewrite Hg; reflexivity).
    rewrite Ht. auto.
  - destruct (get_databases_miss bg bs skip limit st (Some v) c1 Hg Ht) as [E1 E2].
    destruct (get_databases_miss bg bs' skip limit st (Some v) c1 Hg Ht) as [E1' E2'].
    rewrite E1, E2, E1', E2'. auto.
  - destruct (get_databases_miss bg bs skip limit st None c1 Hg I) as [E1 E2].
    destruct (get_databases_miss bg bs' skip limit st None c1 Hg I) as [E1' E2'].
    rewrite E1, E2, E1', E2'. auto.
Qed.

Lemma get_database_set_indep (bg bs bs' : backend) (x : pystr) (st : St) :
  fst (get_database bg bs x st) = fst (get_database bg bs' x st) /\
  st_db (snd (get_database bg bs x st)) = st_db (snd (get_database bg bs' x st)).
Proof.
  destruct (get_cache bg (cache_key_database x) (st_cache st)) as [cached c1] eqn:Hg.
  destruct cached as [v|]; [destruct (py_truthy v) eqn:Ht|].
  - unfold get_database.
    rewrite !(bind_inr _ _ st (mkSt (st_db st) c1) (Some v)) by (unfold cache_op; rewrite Hg; reflexivity).
    cbv zeta. rewrite Ht. auto.
  - destruct (get_database_miss bg bs x st (Some v) c1 Hg Ht) as [E1 E2].
    destruct (get_database_miss bg bs' x st (Some v) c1 Hg Ht) as [E1' E2'].
    rewrite E1, E2, E1', E2'. auto.
  - destruct (get_database_miss bg bs x st None c1 Hg I) as [E1 E2].
    destruct (get_database_miss bg bs' x st None c1 Hg I) as [E1' E2'].
    rewrite E1, E2, E1', E2'. auto.
Qed.

Lemma create_inv_indep (bi bi' : backend) (nid now : Z) (din : DatabaseCreate) (st : St) :
  fst (create_database bi nid now din st) = fst (create_database bi' nid now din st) /\
  st_db (snd (create_database bi nid now din st)) = st_db (snd (create_database bi' nid now din st)).
Proof.
  unfold create_database, to_response.
  unfold bind, get_db, lift_option, ret, raise, put_db, invalidate, cache_op.
  repeat case_match; simplify_eq/=; auto.
Qed.

Lemma update_inv_indep (bi bi' : backend) (now : Z) (x : pystr) (din : DatabaseUpdate) (st : St) :
  fst (update_database bi now x din st) = fst (update_database bi' now x din st) /\
  st_db (snd (update_database bi now x din st)) = st_db (snd (update_database bi' now x din st)).
Proof.
  unfold update_database, get_database_by_id_or_slug, to_response.
  unfold bind, get_db, lift_option, ret, raise, put_db, invalidate, cache_op.
  repeat case_match; simplify_eq/=; auto.
Qed.

Lemma delete_inv_indep (bi bi' : backend) (x : pystr) (st : St) :
  fst (delete_database bi x st) = fst (delete_database bi' x st) /\
  st_db (snd (delete_database bi x st)) = st_db (snd (delete_database bi' x st)).
Proof.
  destruct (delete_shape bi x st) as [(e & Hl & E) | (d & Hl & E)];
    destruct (delete_shape bi' x st) as [(e' & Hl' & E') | (d' & Hl' & E')];
    rewrite E, E'; rewrite Hl in Hl'; try discriminate; injection Hl' as ->; auto.
Qed.

(** C1 (amended): in every state the service reaches, a list read, an item
    read, and the views returned by create and update carry, for each record
    they show, [encrypt_connection_string] of the connection string stored
    in that record: reads never hit the cache and are computed from storage.
    Since [encrypt_connection_string ""] is [""], an empty stored
    connection string is returned as it is. *)
Theorem read_paths_encrypt (st : St) :
  reachable st ->
  (forall bg bs skip limit rs cs,
     fst (get_databases bg bs skip limit st) = inr (rs, cs) ->
     cs = MISS /\ exists ds, query_page_result skip limit (st_db st) = inr ds /\
       Forall2 (fun d r => r_id r = id d /\
                  encrypt_connection_string (connection_string d) = Some (r_connection_string r))
         ds rs) /\
  (forall bg bs x r cs,
     fst (get_database bg bs x st) = inr (r, cs) ->
     cs = MISS /\ exists d, In d (st_db st) /\ r_id r = id d /\
       encrypt_connection_string (connection_string d) = Some (r_connection_string r)) /\
  (forall bi nid now din r,
     fst (create_database bi nid now din st) = inr r ->
     exists d, In d (st_db (snd (create_database bi nid now din st))) /\ r_id r = id d /\
       connection_string d = c_connection_string din /\
       encrypt_connection_string (connection_string d) = Some (r_connection_string r)) /\
  (forall bi now x din r,
     fst (update_database bi now x din st) = inr r ->
     exists d, In d (st_db (snd (update_database bi now x din st))) /\ r_id r = id d /\
       encrypt_connection_string (connection_string d) = Some (r_connection_string r)).
Proof.
  intros Hr. split; [|split; [|split]].
  - intros bg bs skip limit rs cs E. rewrite reachable_list_miss in E by exact Hr.
    apply list_miss_result_spec, E.
  - intros bg bs x r cs E. rewrite reachable_item_miss in E by exact Hr.
    apply item_miss_result_spec in E as [-> (d & _ & Hin & Hid & Hc)]. split; [reflexivity|].
    exists d. auto.
  - intros bi nid now din r E.
    destruct (create_shape bi nid now din st) as [(e & E') | (d & _ & _ & _ & _ & Hd & E')];
      rewrite E' in E |- *; [discriminate|].
    cbn in E |- *. apply response_result_spec in E as [Hid Hc]. exists d.
    split; [apply in_or_app; right; left; reflexivity|]. split; [exact Hid|].
    split; [rewrite Hd; reflexivity | exact Hc].
  - intros bi now x din r E.
    destruct (update_shape bi now x din st) as
      [(e & E') | (d & d' & Hl & _ & _ & _ & _ & _ & Hid & _ & _ &
                   [(_ & _ & _ & _ & _ & _ & E') | (_ & _ & _ & E')])];
      rewrite E' in E |- *; [discriminate| |]; cbn in E |- *;
      apply response_result_spec in E as [Hr' Hc].
    + exists d. split; [apply (lookup_result_in x), Hl|]. auto.
    + exists d'. split; [|auto]. apply (replace_by_id_in d); [apply (lookup_result_in x), Hl|].
      symmetry. exact Hid.
Qed.

Lemma pick_spec {A} (f : Field A) (old new : A) :
  pick f old = Some new -> (f = Unset -> new = old) /\ (forall v, f = SetTo v -> v = Some new).
Proof.
  destruct f as [|v]; cbn; intros E; (split; [intros Hf|intros v' Hf]); try discriminate.
  - injection E as <-. reflexivity.
  - injection Hf as <-. exact E.
Qed.


(** C7: every cache operation is fail-open.  A get whose Redis calls raise
    answers [None] (a miss), a set whose Redis calls or [json.dumps] raise
    answers [False], a pattern delete whose Redis calls raise answers
    [False]; each of them leaves the cache content as it was and logs a
    warning.  No request is failed by the cache: a list or item read whose
    cache get fails answers what storage gives; what a read answers does not
    depend on the outcome of its cache set, and what a create, update or
    delete answers and writes to the table does not depend on the outcome
    of its invalidation. *)
Theorem cache_fail_open :
  (forall e key c, exists msg, get_cache (Down e) key c = (None, log_line WARNING msg c)) /\
  (forall e key v ttl c, exists msg, set_cache (Down e) key v ttl c = (false, log_line WARNING msg c)) /\
  (forall key v ttl c e, json_dumps v = inl e ->
     exists msg, set_cache Up key v ttl c = (false, log_line WARNING msg c)) /\
  (forall e pattern c, exists msg, delete_pattern (Down e) pattern c = (false, log_line WARNING msg c)) /\
  (forall e bs skip limit st,
     fst (get_databases (Down e) bs skip limit st) = list_miss_result skip limit (st_db st) /\
     st_db (snd (get_databases (Down e) bs skip limit st)) = st_db st) /\
  (forall e bs x st,
     fst (get_database (Down e) bs x st) = item_miss_result x (st_db st) /\
     st_db (snd (get_database (Down e) bs x st)) = st_db st) /\
  (forall bg bs bs' skip limit st,
     fst (get_databases bg bs skip limit st) = fst (get_databases bg bs' skip limit st) /\
     st_db (snd (get_databases bg bs skip limit st)) = st_db (snd (get_databases bg bs' skip limit st))) /\
  (forall bg bs bs' x st,
     fst (get_database bg bs x st) = fst (get_database bg bs' x st) /\
     st_db (snd (get_database bg bs x st)) = st_db (snd (get_database bg bs' x st))) /\
  (forall bi bi' nid now din st,
     fst (create_database bi nid now din st) = fst (create_database bi' nid now din st) /\
     st_db (snd (create_database bi nid now din st)) = st_db (snd (create_database bi' nid now din st))) /\
  (forall bi bi' now x din st,
     fst (update_database bi now x din st) = fst (update_database bi' now x din st) /\
     st_db (snd (update_database bi now x din st)) = st_db (snd (update_database bi' now x din st))) /\
  (forall bi bi' x st,
     fst (delete_database bi x st) = fst (delete_database bi' x st) /\
     st_db (snd (delete_database bi x st)) = st_db (snd (delete_database bi' x st))).
Proof.
  split; [intros e key c; eexists; reflexivity|].
  split; [intros e key v ttl c; eexists; reflexivity|].
  split; [intros key v ttl c e He; unfold set_cache; rewrite He; eexists; reflexivity|].
  split; [intros e pattern c; eexists; reflexivity|].
  split; [intros e bs skip limit st; exact (get_databases_miss (Down e) bs skip limit st None _ eq_refl I)|].
  split; [intros e bs x st; exact (get_database_miss (Down e) bs x st None _ eq_refl I)|].
  split; [intros; apply get_databases_set_indep|].
  split; [intros; apply get_database_set_indep|].
  split; [intros; apply create_inv_indep|].
  split; [intros; apply update_inv_indep|].
  intros; apply delete_inv_indep.
Qed.

(** C8 (amended): when an update succeeds, the record it rewrote keeps the
    value of every field absent from the payload, takes the payload's value
    for every present field (an explicit null for [description] clears it),
    keeps its id, slug and creation time, and has [updated_at] set to the
    transaction time when some column's value changed; when no column's
    value changed, no UPDATE is issued and [updated_at] stays as it was. *)
Theorem update_applies_payload (bi : backend) (now : Z) (x : pystr) (din : DatabaseUpdate)
    (st : St) (r : DatabaseResponse) (st' : St) :
  update_database bi now x din st = (inr r, st') ->
  exists d d', lookup_result x (st_db st) = inr d /\ In d' (st_db st') /\
    response_result d' = inr r /\
    (u_name din = Unset -> name d' = name d) /\
    (forall v, u_name din = SetTo v -> v = Some (name d')) /\
    (u_type din = Unset -> type d' = type d) /\
    (forall v, u_type din = SetTo v -> v = Some (type d')) /\
    (u_connection_string din = Unset -> connection_string d' = connection_string d) /\
    (forall v, u_connection_string din = SetTo v -> v = Some (connection_string d')) /\
    (u_description din = Unset -> description d' = description d) /\
    (forall v, u_description din = SetTo v -> description d' = v) /\
    (u_status din = Unset -> status d' = status d) /\
    (forall v, u_status din = SetTo v -> v = Some (status d')) /\
    id d' = id d /\ slug d' = slug d /\ created_at d' = created_at d /\
    (name d' = name d /\ type d' = type d /\ connection_string d' = connection_string d /\
     description d' = description d /\ status d' = status d ->
       updated_at d' = updated_at d /\ st_db st' = st_db st) /\
    (~ (name d' = name d /\ type d' = type d /\ connection_string d' = connection_string d /\
        description d' = description d /\ status d' = status d) ->
       updated_at d' = now).
Proof.
  intros E.
  destruct (update_shape bi now x din st) as
    [(e & E') | (d & d' & Hl & Pn & Pt & Pc & Pd & Ps & Hid & Hsl & Hca & Hcase)].
  { rewrite E' in E. discriminate. }
  apply pick_spec in Pn as [Pn1 Pn2], Pt as [Pt1 Pt2], Pc as [Pc1 Pc2], Ps as [Ps1 Ps2].
  assert (Hd1 : u_description din = Unset -> description d' = description d)
    by (intros Hu; rewrite Pd, Hu; reflexivity).
  assert (Hd2 : forall v, u_description din = SetTo v -> description d' = v)
    by (intros v Hu; rewrite Pd, Hu; reflexivity).
  exists d, d'.
  destruct Hcase as [(En & Et & Ec & Ed & Es & -> & E') | (Hne & Hup & _ & E')];
    rewrite E' in E; injection E as Er <-.
  - split; [exact Hl|]. split; [apply (lookup_result_in x), Hl|]. split; [exact Er|].
    do 13 (split; [assumption|]). split.
    + intros _. auto.
    + intros Hn. exfalso. apply Hn. auto.
  - split; [exact Hl|].
    split; [apply (replace_by_id_in d); [apply (lookup_result_in x), Hl | symmetry; exact Hid]|].
    split; [exact Er|]. do 13 (split; [assumption|]). split.
    + intros Hs. contradiction.
    + intros _. exact Hup.
Qed.

(** C10: a list read whose cache entry is absent or holds the empty list
    (which the read itself writes after an empty result) answers from
    storage with a miss, whatever the cache backend does; when the page of
    storage is empty it answers the empty list with status MISS. *)
Theorem empty_list_reports_miss (bg bs : backend) (skip limit : Z) (st : St) :
  (store (st_cache st) !! cache_key_database_list skip limit = None \/
   store (st_cache st) !! cache_key_database_list skip limit = Some (JArr [])) ->
  fst (get_databases bg bs skip limit st) = list_miss_result skip limit (st_db st) /\
  (0 <= skip -> 0 <= limit ->
   firstn (Z.to_nat limit) (skipn (Z.to_nat skip) (st_db st)) = [] ->
   fst (get_databases bg bs skip limit st) = inr ([], MISS)).
Proof.
  intros Hc.
  assert (Hm : fst (get_databases bg bs skip limit st) = list_miss_result skip limit (st_db st)).
  { destruct (get_cache bg (cache_key_database_list skip limit) (st_cache st)) as [cached c1] eqn:Hg.
    apply (get_databases_miss bg bs skip limit st cached c1 Hg).
    revert Hg. unfold get_cache. destruct bg as [|e].
    - destruct Hc as [Hc|Hc]; rewrite Hc; intros E; injection E as <- _; [exact I | reflexivity].
    - intros E. injection E as <- _. exact I. }
  split; [exact Hm|]. intros Hs Hl Hp. rewrite Hm.
  unfold list_miss_result, query_page_result.
  replace ((skip <? 0) || (limit <? 0)) with false by (symmetry; apply orb_false_iff; split; apply Z.ltb_ge; lia).
  rewrite Hp. reflexivity.
Qed.

End Claims.

(** C1 does not hold as stated: a record whose stored connection string is
    empty is returned with the stored plaintext itself. *)
Lemma read_plaintext_empty_counterexample :
  exists r, fst (@get_database xor_key_cipher ascii_lib Up Up (pys "prod-db")
                   (mkSt [sample_db_empty_secret] empty_cache)) = inr (r, MISS) /\
    r_connection_string r = connection_string sample_db_empty_secret.
Proof.
  destruct (fst (@get_database xor_key_cipher ascii_lib Up Up (pys "prod-db")
                   (mkSt [sample_db_empty_secret] empty_cache))) as [e|[r cs]] eqn:E;
    vm_compute in E; [discriminate|].
  injection E as <- <-. eexists. split; reflexivity.
Qed.

Lemma read_paths_encrypt_witness :
  @reachable xor_key_cipher ascii_lib (mkSt [sample_db] empty_cache) /\
  exists r, fst (@get_database xor_key_cipher ascii_lib Up Up (pys "prod-db")
                   (mkSt [sample_db] empty_cache)) = inr (r, MISS) /\
    @encrypt_connection_string xor_key_cipher (connection_string sample_db) = Some (r_connection_string r).
Proof.
  assert (Hr : @reachable xor_key_cipher ascii_lib (mkSt [sample_db] empty_cache))
    by (apply reachable_init; intros k _; reflexivity).
  split; [exact Hr|].
  destruct (@read_paths_encrypt xor_key_cipher ascii_lib _ Hr) as (_ & Hget & _ & _).
  destruct (fst (@get_database xor_key_cipher ascii_lib Up Up (pys "prod-db")
                   (mkSt [sample_db] empty_cache))) as [e|[r cs]] eqn:E;
    [vm_compute in E; discriminate|].
  destruct (Hget _ _ _ _ _ E) as [-> (d & Hin & _ & Hc)].
  destruct Hin as [<-|[]]. exists r. split; [reflexivity | exact Hc].
Defined.


(** C8 does not hold as stated: an update whose payload is empty succeeds
    without refreshing [updated_at]. *)
Lemma update_empty_payload_counterexample :
  exists r st',
    @update_database xor_key_cipher ascii_lib Up 200 (pys "prod-db")
      (mkDatabaseUpdate Unset Unset Unset Unset Unset) (mkSt [sample_db] empty_cache)
      = (inr r, st') /\
    r_updated_at r = 100 /\ 100 <> 200.
Proof.
  destruct (@update_database xor_key_cipher ascii_lib Up 200 (pys "prod-db")
              (mkDatabaseUpdate Unset Unset Unset Unset Unset) (mkSt [sample_db] empty_cache))
    as [[e|r] st'] eqn:E; vm_compute in E; [discriminate|].
  injection E as <- <-. do 2 eexists. split; [reflexivity|]. split; [reflexivity | lia].
Qed.

Lemma update_applies_payload_witness :
  exists r st',
    @update_database xor_key_cipher ascii_lib Up 200 (pys "prod-db")
      (mkDatabaseUpdate (SetTo (Some (pys "Prod DB 2"))) Unset Unset (SetTo None) Unset)
      (mkSt [sample_db] empty_cache) = (inr r, st') /\
    exists d', In d' (st_db st') /\ name d' = pys "Prod DB 2" /\ description d' = None /\
      updated_at d' = 200.
Proof.
  destruct (@update_database xor_key_cipher ascii_lib Up 200 (pys "prod-db")
              (mkDatabaseUpdate (SetTo (Some (pys "Prod DB 2"))) Unset Unset (SetTo None) Unset)
              (mkSt [sample_db] empty_cache)) as [[e|r] st'] eqn:E;
    [vm_compute in E; discriminate|].
  exists r, st'. split; [reflexivity|].
  destruct (@update_applies_payload xor_key_cipher ascii_lib _ _ _ _ _ _ _ E)
    as (d & d' & Hl & Hin & _ & _ & Hn & _ & _ & _ & _ & _ & Hd & _ & _ & _ & _ & _ & _ & Hup).
  vm_compute in Hl. injection Hl as <-.
  exists d'. split; [exact Hin|].
  assert (En : name d' = pys "Prod DB 2") by (symmetry; injection (Hn _ eq_refl) as ->; reflexivity).
  split; [exact En|]. split; [exact (Hd None eq_refl)|].
  apply Hup. intros (E1 & _). rewrite En in E1. vm_compute in E1. discriminate.
Defined.

Lemma empty_list_reports_miss_witness :
  store (st_cache (mkSt [] cache_empty_page)) !! cache_key_database_list 0 100 = Some (JArr []) /\
  fst (@get_databases xor_key_cipher ascii_lib Up Up 0 100 (mkSt [] cache_empty_page))
    = inr ([], MISS).
Proof.
  assert (Hc : store (st_cache (mkSt [] cache_empty_page)) !! cache_key_database_list 0 100
               = Some (JArr [])) by (vm_compute; reflexivity).
  split; [exact Hc|].
  apply (proj2 (@empty_list_reports_miss xor_key_cipher ascii_lib Up Up 0 100 _ (or_intror Hc)));
    [lia | lia | reflexivity].
Defined.

End ServiceFacts.

Module BackupFacts.
Import Crypto Model Lib Slug Cache Service Samples Backup.

(** C6 fails on this input: a record created through the API with a name
    holding a newline makes [generate_backup_sql] emit, besides the enum
    block and the one upsert of the record, a statement of its own (here
    one that re-assigns [created_at] of every row when the script is
    restored), because the [-- Backup record:] comment line embeds the raw
    name while the values are quoted. *)
Theorem backup_comment_injection :
  (exists r, fst (@create_database xor_key_cipher ascii_lib Up 9 100 sample_create_injected
                    (mkSt [] empty_cache)) = inr r) /\
  let db := st_db (snd (@create_database xor_key_cipher ascii_lib Up 9 100 sample_create_injected
                          (mkSt [] empty_cache))) in
  length db = 1%nat /\
  length (pg_statements (@generate_backup_sql ascii_lib db)) = 3%nat /\
  nth 1 (pg_statements (@generate_backup_sql ascii_lib db)) []
    = pys "UPDATE databases SET created_at = now()".
Proof.
  split.
  - destruct (fst (@create_database xor_key_cipher ascii_lib Up 9 100 sample_create_injected
                     (mkSt [] empty_cache))) as [e|r] eqn:E; vm_compute in E; [discriminate|].
    exists r. reflexivity.
  - vm_compute. split; [reflexivity|]. split; reflexivity.
Qed.

End BackupFacts.


Module CacheFacts.
Import Model Cache Service.

(** A text that encodes as UTF-8: every character a Unicode scalar value. *)
Definition utf8_text (s : pystr) : bool :=
  forallb (fun c => (0 <=? c) && (c <? 1114112) && negb (Crypto.is_surrogate c)) s.

(** A pattern character that Redis matches as itself, as [glob_match]
    does: a Unicode scalar value other than [?] (one byte for Redis, not
    one character), [[] and [\]. *)
Definition plain_glob_char (c : Z) : bool :=
  (0 <=? c) && (c <? 1114112) && negb (Crypto.is_surrogate c)
  && negb (c =? 63) && negb (c =? 91) && negb (c =? 92).

Lemma foldr_delete_notin (m : gmap pystr jval) (ks : list pystr) (k : pystr) :
  ~ In k ks -> foldr delete m ks !! k = m !! k.
Proof.
  induction ks as [|k' ks IH]; cbn; [reflexivity|].
  intros Hn. rewrite lookup_delete_ne by (intros ->; apply Hn; left; reflexivity).
  apply IH. intros Hin. apply Hn. right. exact Hin.
Qed.

Lemma in_store_keys (m : gmap pystr jval) (k : pystr) (v : jval) :
  m !! k = Some v -> In k (map fst (map_to_list m)).
Proof.
  intros Hv. apply in_map_iff. exists (k, v). split; [reflexivity|].
  apply list_elem_of_In, elem_of_map_to_list, Hv.
Qed.

(** ** Keys *)

Lemma uint_digits_range (u : Decimal.uint) : Forall (fun c => 48 <= c <= 57) (uint_digits u).
Proof. induction u; cbn; constructor; auto; lia. Qed.

Lemma str_int_no_colon (z : Z) : ~ In 58 (str_int z).
Proof.
  assert (Hu : forall u, ~ In 58 (uint_digits u)).
  { intros u Hin. pose proof (uint_digits_range u) as Hr.
    rewrite List.Forall_forall in Hr. specialize (Hr 58 Hin). lia. }
  destruct z as [|p|p]; cbn [str_int].
  - intros [H|[]]. discriminate.
  - apply Hu.
  - intros [H|Hin]; [discriminate | exact (Hu _ Hin)].
Qed.

Lemma uint_digits_pos_head (p : positive) :
  exists c r, uint_digits (Pos.to_uint p) = c :: r /\ 48 <= c <= 57 /\
    uint_digits (Pos.to_uint p) <> [48].
Proof.
  pose proof (DecimalPos.Unsigned.to_uint_nonnil p) as Hnil.
  pose proof (DecimalPos.Unsigned.to_uint_nonzero p) as Hz.
  pose proof (uint_digits_range (Pos.to_uint p)) as Hr.
  destruct (uint_digits (Pos.to_uint p)) as [|c r] eqn:E.
  - exfalso. apply Hnil. apply SlugFacts.uint_digits_inj. rewrite E. reflexivity.
  - exists c, r. split; [reflexivity|]. split; [inversion Hr; assumption|].
    intros E'. apply Hz. apply SlugFacts.uint_digits_inj. rewrite E, E'. reflexivity.
Qed.

Lemma str_int_inj (a b : Z) : str_int a = str_int b -> a = b.
Proof.
  destruct a as [|p|p], b as [|q|q]; cbn [str_int]; intros E; try reflexivity.
  - destruct (uint_digits_pos_head q) as (_ & _ & _ & _ & Hq). congruence.
  - discriminate.
  - destruct (uint_digits_pos_head p) as (_ & _ & _ & _ & Hp). congruence.
  - f_equal. apply DecimalPos.Unsigned.to_uint_inj, SlugFacts.uint_digits_inj, E.
  - destruct (uint_digits_pos_head p) as (c & r & Hp & Hc & _). rewrite Hp in E.
    injection E as E _. lia.
  - discriminate.
  - destruct (uint_digits_pos_head q) as (c & r & Hq & Hc & _). rewrite Hq in E.
    injection E as E _. lia.
  - injection E as E. f_equal. apply DecimalPos.Unsigned.to_uint_inj, SlugFacts.uint_digits_inj, E.
Qed.

Lemma app_sep_inj (sep : Z) (a b a' b' : pystr) :
  ~ In sep a -> ~ In sep a' -> a ++ sep :: b = a' ++ sep :: b' -> a = a' /\ b = b'.
Proof.
  revert a'. induction a as [|x a IH]; intros [|y a'] Ha Ha' E; cbn in E.
  - injection E as E. auto.
  - injection E as -> _. exfalso. apply Ha'. left. reflexivity.
  - injection E as <- _. exfalso. apply Ha. left. reflexivity.
  - injection E as -> E. destruct (IH a') as [-> ->]; auto.
    + intros Hin. apply Ha. right. exact Hin.
    + intros Hin. apply Ha'. right. exact Hin.
Qed.

(** ** Properties *)

(** With Redis answering, and with keys that are Redis keys of the client
    (texts that [decode_responses=True] reads back), [delete_pattern] of a
    pattern made of literal characters and [*] returns [True] and removes
    exactly the keys the pattern matches, leaving every other key as it
    was; in particular [invalidate_database_cache] removes exactly the keys
    that start with "databases:". *)
Theorem delete_pattern_exact (c : cache_state) :
  map_Forall (fun k _ => utf8_text k = true) (store c) ->
  (forall pattern, forallb plain_glob_char pattern = true ->
     fst (delete_pattern Up pattern c) = true /\
     (forall k, store (snd (delete_pattern Up pattern c)) !! k =
                if glob_match pattern k then None else store c !! k)) /\
  (forall k, store (invalidate_database_cache Up c) !! k =
             if is_prefix registry_prefix k then None else store c !! k).
Proof.
  intros _.
  assert (Hgen : forall pattern k, store (snd (delete_pattern Up pattern c)) !! k =
                   if glob_match pattern k then None else store c !! k).
  { intros pattern k. unfold delete_pattern.
    set (keys := List.filter (glob_match pattern) (map fst (map_to_list (store c)))).
    assert (Hin : forall v, store c !! k = Some v -> glob_match pattern k = true -> In k keys).
    { intros v Hv Hg. apply filter_In. split; [exact (in_store_keys _ k v Hv) | exact Hg]. }
    destruct (glob_match pattern k) eqn:Hg.
    - destruct (store c !! k) as [v|] eqn:Hv.
      + specialize (Hin v eq_refl eq_refl).
        destruct (is_empty keys) eqn:Ek; [destruct keys; [contradiction | discriminate]|].
        cbn. apply ServiceFacts.foldr_delete_in, Hin.
      + destruct (is_empty keys); cbn; [exact Hv|].
        rewrite foldr_delete_notin; [exact Hv|].
        intros Hk. apply filter_In in Hk as [Hk _]. apply in_map_iff in Hk as ([k' v] & Ek & Hkv).
        cbn in Ek. subst k'. apply list_elem_of_In, elem_of_map_to_list in Hkv. congruence.
    - destruct (is_empty keys); cbn; [reflexivity|].
      apply foldr_delete_notin. intros Hk. apply filter_In in Hk as [_ Hk]. congruence. }
  split.
  - intros pattern _. split; [unfold delete_pattern; destruct (is_empty _); reflexivity|].
    exact (Hgen pattern).
  - intros k. unfold invalidate_database_cache. rewrite Hgen, ServiceFacts.glob_registry. reflexivity.
Qed.

Lemma delete_pattern_exact_witness :
  map_Forall (fun k _ => utf8_text k = true) (store Samples.cache_empty_page) /\
  forallb plain_glob_char (pys "databases:list:*") = true /\
  store (snd (delete_pattern Up (pys "databases:list:*") Samples.cache_empty_page))
    !! cache_key_database_list 0 100 = None.
Proof.
  assert (Hm : map_Forall (fun k _ => utf8_text k = true) (store Samples.cache_empty_page))
    by (apply map_Forall_insert_2; [reflexivity | apply map_Forall_empty]).
  assert (Hp : forallb plain_glob_char (pys "databases:list:*") = true) by reflexivity.
  split; [exact Hm|]. split; [exact Hp|].
  rewrite (proj2 (proj1 (delete_pattern_exact Samples.cache_empty_page Hm) _ Hp)).
  vm_compute. reflexivity.
Defined.

(** [delete_cache] with Redis answering returns [True], removes the key
    (a following [get_cache] misses) and no other; when Redis fails it
    returns [False] and the cache content stays as it was. *)
Theorem delete_cache_then_get_cache (key : pystr) (c : cache_state) :
  fst (delete_cache Up key c) = true /\
  fst (get_cache Up key (snd (delete_cache Up key c))) = None /\
  (forall k, k <> key -> store (snd (delete_cache Up key c)) !! k = store c !! k) /\
  (forall e, fst (delete_cache (Down e) key c) = false /\
             store (snd (delete_cache (Down e) key c)) = store c).
Proof.
  split; [reflexivity|]. split.
  - unfold get_cache. cbn. rewrite lookup_delete_eq. reflexivity.
  - split; [intros k Hk; cbn; apply lookup_delete_ne; congruence|].
    intros e. split; reflexivity.
Qed.

(** The cache keys name what they cache: two list pages share a key only
    when they have the same [skip] and [limit], two items only when they
    are looked up by the same text, and a list key is never an item key. *)
Theorem cache_keys_injective :
  (forall s1 l1 s2 l2, cache_key_database_list s1 l1 = cache_key_database_list s2 l2 ->
     s1 = s2 /\ l1 = l2) /\
  (forall x y, cache_key_database x = cache_key_database y -> x = y) /\
  (forall s l x, cache_key_database_list s l <> cache_key_database x).
Proof.
  split; [|split].
  - intros s1 l1 s2 l2 E. unfold cache_key_database_list in E.
    apply app_inv_head in E.
    destruct (app_sep_inj 58 (str_int s1) (str_int l1) (str_int s2) (str_int l2)
                (str_int_no_colon s1) (str_int_no_colon s2) E) as [E1 E2].
    split; apply str_int_inj; assumption.
  - intros x y E. unfold cache_key_database in E. apply app_inv_head in E. exact E.
  - intros s l x E. unfold cache_key_database_list, cache_key_database in E.
    apply (f_equal (fun k => nth 10 k 0)) in E. cbn in E. discriminate.
Qed.

(** A [get_redis] whose PING fails re-raises, but the client it built
    stays in the global: every later [get_redis] returns that client at
    once, with no PING and no error, until [close_redis] resets the
    global; the next [get_redis] then builds a new client. *)
Theorem get_redis_failed_ping_kept (e : pystr) (m : redis_module) :
  redis_client m = None ->
  fst (get_redis (Some e) m) = inl e /\
  (forall ping, get_redis ping (snd (get_redis (Some e) m))
                = (inr (clients_built m), snd (get_redis (Some e) m))) /\
  (forall ping, redis_client (snd (get_redis ping (snd (close_redis None (snd (get_redis (Some e) m))))))
                = Some (S (clients_built m))).
Proof.
  intros Hm. unfold get_redis. rewrite Hm. cbn. split; [reflexivity|].
  split; [reflexivity|]. intros [p|]; reflexivity.
Qed.

Lemma get_redis_failed_ping_kept_witness :
  redis_client (mkRedisModule None 0 []) = None /\
  get_redis None (snd (get_redis (Some (pys "Connection refused")) (mkRedisModule None 0 [])))
    = (inr 0%nat, snd (get_redis (Some (pys "Connection refused")) (mkRedisModule None 0 []))).
Proof.
  split; [reflexivity|].
  exact (proj1 (proj2 (get_redis_failed_ping_kept (pys "Connection refused") (mkRedisModule None 0 [])
                         eq_refl)) None).
Defined.

End CacheFacts.

Module SlugShapeFacts.
Import Model Lib Slug.

Definition slug_or_hyphen (c : Z) : Prop := is_slug_char c = true \/ c = 45.

Lemma hyphen_not_slug : is_slug_char 45 = false.
Proof. reflexivity. Qed.

Lemma sub_non_slug_chars (b : bool) (s : pystr) : Forall slug_or_hyphen (sub_non_slug b s).
Proof.
  revert b. induction s as [|c s IH]; intros b; cbn; [constructor|].
  destruct (is_slug_char c) eqn:Ec; [constructor; [left; exact Ec | apply IH]|].
  destruct b; [apply IH | constructor; [right; reflexivity | apply IH]].
Qed.

Lemma sub_non_slug_run_head (s r : pystr) : sub_non_slug true s <> 45 :: r.
Proof.
  revert r. induction s as [|c s IH]; intros r; cbn; [discriminate|].
  destruct (is_slug_char c) eqn:Ec; [|apply IH].
  intros E. injection E as -> _. rewrite hyphen_not_slug in Ec. discriminate.
Qed.

Lemma sub_non_slug_no_double (b : bool) (s a r : pystr) :
  sub_non_slug b s <> a ++ 45 :: 45 :: r.
Proof.
  revert b a. induction s as [|c s IH]; intros b a; cbn.
  - destruct a; discriminate.
  - destruct (is_slug_char c) eqn:Ec.
    + destruct a as [|x a]; cbn; intros E; injection E as Ex E.
      * subst c. rewrite hyphen_not_slug in Ec. discriminate.
      * exact (IH false a E).
    + destruct b; [apply IH|].
      destruct a as [|x a]; cbn; intros E.
      * injection E as E. exact (sub_non_slug_run_head s r E).
      * injection E as Ex E. exact (IH true a E).
Qed.

Lemma lstrip_hyphen_suffix (s : pystr) : exists p, s = p ++ lstrip_hyphen s.
Proof.
  induction s as [|c s IH]; cbn; [exists []; reflexivity|].
  destruct (c =? 45); [|exists []; reflexivity].
  destruct IH as (p & Hp). exists (c :: p). cbn. rewrite <- Hp. reflexivity.
Qed.

Lemma lstrip_hyphen_head (s r : pystr) : lstrip_hyphen s <> 45 :: r.
Proof.
  induction s as [|c s IH]; cbn; [discriminate|].
  destruct (Z.eqb_spec c 45); [exact IH|]. intros E. injection E as ->. contradiction.
Qed.

Lemma lstrip_hyphen_id (s : pystr) : (forall r, s <> 45 :: r) -> lstrip_hyphen s = s.
Proof.
  destruct s as [|c s]; intros Hs; [reflexivity|]. cbn.
  destruct (Z.eqb_spec c 45); [subst; exfalso; exact (Hs s eq_refl) | reflexivity].
Qed.

Lemma strip_hyphen_infix (s : pystr) : exists p q, s = p ++ strip_hyphen s ++ q.
Proof.
  unfold strip_hyphen.
  destruct (lstrip_hyphen_suffix s) as (p & Hp).
  destruct (lstrip_hyphen_suffix (rev (lstrip_hyphen s))) as (q & Hq).
  exists p, (rev q). rewrite Hp at 1. f_equal.
  rewrite <- rev_app_distr, <- Hq, rev_involutive. reflexivity.
Qed.

Lemma strip_hyphen_ends (s : pystr) :
  (forall r, strip_hyphen s <> 45 :: r) /\ (forall r, strip_hyphen s <> r ++ [45]).
Proof.
  unfold strip_hyphen. split.
  - intros r E.
    destruct (lstrip_hyphen_suffix (rev (lstrip_hyphen s))) as (q & Hq).
    apply (f_equal (@rev Z)) in Hq. rewrite rev_involutive, rev_app_distr, E in Hq.
    cbn in Hq.
    exact (lstrip_hyphen_head s _ Hq).
  - intros r E. apply (f_equal (@rev Z)) in E. rewrite rev_involutive, rev_app_distr in E.
    exact (lstrip_hyphen_head _ _ E).
Qed.

Lemma sub_non_slug_id (b : bool) (s : pystr) :
  Forall slug_or_hyphen s -> (forall a r, s <> a ++ 45 :: 45 :: r) ->
  (b = true -> forall r, s <> 45 :: r) -> sub_non_slug b s = s.
Proof.
  revert b. induction s as [|c s IH]; intros b Hs Hd Hb; [reflexivity|].
  apply Forall_cons in Hs as [Hc Hs]. cbn.
  assert (Hd' : forall a r, s <> a ++ 45 :: 45 :: r)
    by (intros a r E; apply (Hd (c :: a) r); rewrite E; reflexivity).
  destruct (is_slug_char c) eqn:Ec.
  - f_equal. apply IH; [exact Hs | exact Hd' | discriminate].
  - destruct Hc as [Hc | ->]; [congruence|].
    destruct b; [exfalso; exact (Hb eq_refl s eq_refl)|].
    f_equal. apply IH; [exact Hs | exact Hd'|].
    intros _ r ->. exact (Hd [] r eq_refl).
Qed.

(** [generate_slug] returns a well-formed slug, whatever [str.lower]
    returns: every character is a lowercase ASCII letter, a digit or a
    hyphen, the slug neither starts nor ends with a hyphen, and it never
    holds two hyphens in a row. *)
Theorem generate_slug_well_formed `{PyLib} (name : pystr) :
  Forall (fun c => is_slug_char c = true \/ c = 45) (generate_slug name) /\
  (forall r, generate_slug name <> 45 :: r) /\
  (forall r, generate_slug name <> r ++ [45]) /\
  (forall a b, generate_slug name <> a ++ 45 :: 45 :: b).
Proof.
  unfold generate_slug.
  set (t := sub_non_slug false (py_lower name)).
  destruct (strip_hyphen_infix t) as (p & q & Ht).
  destruct (strip_hyphen_ends t) as [Hh Hl].
  split; [|split; [exact Hh|split; [exact Hl|]]].
  - pose proof (sub_non_slug_chars false (py_lower name)) as Hc. fold t in Hc.
    rewrite Ht in Hc. apply Forall_app in Hc as [_ Hc]. apply Forall_app in Hc as [Hc _].
    exact Hc.
  - intros a b E. apply (sub_non_slug_no_double false (py_lower name) (p ++ a) (b ++ q)).
    fold t. rewrite Ht, E. rewrite <- !app_assoc. reflexivity.
Qed.

(** [generate_slug] is idempotent: a slug it returned is its own slug,
    given that [str.lower] leaves that slug unchanged (Python's does, for
    every text of lowercase ASCII letters, digits and hyphens). *)
Theorem generate_slug_idempotent `{PyLib} (name : pystr) :
  py_lower (generate_slug name) = generate_slug name ->
  generate_slug (generate_slug name) = generate_slug name.
Proof.
  intros Hl.
  destruct (generate_slug_well_formed name) as (Hc & Hh & Ht & Hd).
  unfold generate_slug at 1. rewrite Hl.
  rewrite (sub_non_slug_id false (generate_slug name) Hc Hd ltac:(discriminate)).
  unfold strip_hyphen. rewrite (lstrip_hyphen_id _ Hh).
  rewrite lstrip_hyphen_id; [apply rev_involutive|].
  intros r E. apply (Ht (rev r)). rewrite <- (rev_involutive (generate_slug name)), E.
  reflexivity.
Qed.

Lemma generate_slug_idempotent_witness :
  @py_lower ascii_lib (@generate_slug ascii_lib (pys "--Hello,  World!!"))
    = @generate_slug ascii_lib (pys "--Hello,  World!!") /\
  @generate_slug ascii_lib (@generate_slug ascii_lib (pys "--Hello,  World!!"))
    = @generate_slug ascii_lib (pys "--Hello,  World!!").
Proof.
  assert (Hl : @py_lower ascii_lib (@generate_slug ascii_lib (pys "--Hello,  World!!"))
               = @generate_slug ascii_lib (pys "--Hello,  World!!")) by (vm_compute; reflexivity).
  split; [exact Hl | exact (@generate_slug_idempotent ascii_lib _ Hl)].
Defined.

End SlugShapeFacts.

Module RegistryFacts.
Import Crypto Model Lib Slug Cache Service Samples ServiceFacts SlugFacts.

(** The row test of [get_database_by_id_or_slug]: by id when the text
    parses as a UUID, by slug otherwise. *)
Definition row_matches `{PyLib} (id_or_slug : pystr) (d : Database) : bool :=
  match uuid_parse id_or_slug with
  | Some database_id => id d =? database_id
  | None => bool_decide (slug d = id_or_slug)
  end.

(** Whether the lookup's query can be sent: always by id, and by slug
    when the driver accepts the text. *)
Definition text_sendable `{PyLib} (id_or_slug : pystr) : bool :=
  match uuid_parse id_or_slug with
  | Some _ => true
  | None => pg_text_ok id_or_slug
  end.

(** The [HTTPException] of a failed lookup. *)
Definition not_found (id_or_slug : pystr) : ApiError :=
  HTTPError 404 (pys "Database with id or slug '" ++ id_or_slug ++ pys "' not found").

(** The primary key on [id] and the unique index on [slug]. *)
Definition table_ok (db : list Database) : Prop :=
  List.NoDup (map id db) /\ List.NoDup (map slug db).

(** A handler that leaves the table as it found it. *)
Definition keeps_db {A} (m : M A) : Prop := forall st, st_db (snd (m st)) = st_db st.

Lemma lookup_result_find `{PyLib} (x : pystr) (db : list Database) :
  lookup_result x db =
    if text_sendable x
    then match List.find (row_matches x) db with Some d => inr d | None => inl (not_found x) end
    else inl (Internal (driver_text_error x)).
Proof.
  unfold lookup_result, row_matches, find_first, text_sendable.
  destruct (uuid_parse x); [|destruct (pg_text_ok x); [|reflexivity]];
    destruct (List.find _ db); reflexivity.
Qed.

Lemma lookup_no_match `{PyLib} (x : pystr) (db : list Database) :
  (forall d, In d db -> row_matches x d = false) -> text_sendable x = true ->
  lookup_result x db = inl (not_found x).
Proof.
  intros Hn Ht. rewrite lookup_result_find, Ht.
  destruct (List.find (row_matches x) db) as [d|] eqn:E; [|reflexivity].
  apply find_some in E as [Hin Hm]. rewrite (Hn d Hin) in Hm. discriminate.
Qed.

Lemma lookup_unsendable `{PyLib} (x : pystr) (db : list Database) :
  text_sendable x = false -> lookup_result x db = inl (Internal (driver_text_error x)).
Proof. intros Ht. rewrite lookup_result_find, Ht. reflexivity. Qed.

Lemma lookup_match `{PyLib} (x : pystr) (db : list Database) (d : Database) :
  lookup_result x db = inr d -> In d db /\ row_matches x d = true /\ text_sendable x = true.
Proof.
  rewrite lookup_result_find. destruct (text_sendable x); [|discriminate].
  destruct (List.find (row_matches x) db) as [d'|] eqn:E;
    intros Hd; [|discriminate]. injection Hd as <-. apply find_some in E as [E1 E2]. auto.
Qed.

Lemma row_ok_slug (d : Database) : row_ok d = true -> pg_text_ok (slug d) = true.
Proof.
  unfold row_ok. intros E.
  repeat match goal with H : _ && _ = true |- _ => apply andb_prop in H as [H ?] end.
  assumption.
Qed.

Lemma find_snoc (p : Database -> bool) (db : list Database) (d : Database) :
  (forall e, In e db -> p e = false) -> p d = true -> List.find p (db ++ [d]) = Some d.
Proof.
  intros Hn Hd. induction db as [|e db IH]; cbn; [rewrite Hd; reflexivity|].
  rewrite (Hn e (or_introl eq_refl)). apply IH. intros e' He'. apply Hn. right. exact He'.
Qed.

Lemma nodup_snoc {A} (l : list A) (x : A) :
  List.NoDup l -> ~ In x l -> List.NoDup (l ++ [x]).
Proof.
  induction 1 as [|y l Hy Hl IH]; intros Hx; cbn; [constructor; [intros []|constructor]|].
  constructor.
  - intros Hin. apply in_app_or in Hin as [Hin|[<-|[]]]; [contradiction|].
    apply Hx. left. reflexivity.
  - apply IH. intros Hin. apply Hx. right. exact Hin.
Qed.

Lemma nodup_map_filter {A B} (f : A -> B) (p : A -> bool) (l : list A) :
  List.NoDup (map f l) -> List.NoDup (map f (List.filter p l)).
Proof.
  induction l as [|x l IH]; cbn; intros Hl; [constructor|].
  inversion Hl as [|? ? Hx Hl']; subst. destruct (p x); cbn; [|apply IH, Hl'].
  constructor; [|apply IH, Hl'].
  intros Hin. apply Hx. apply in_map_iff in Hin as (y & Hy & Hyl).
  apply filter_In in Hyl as [Hyl _]. rewrite <- Hy. apply in_map, Hyl.
Qed.

Lemma nodup_map_eq {A B} (f : A -> B) (l : list A) (a b : A) :
  List.NoDup (map f l) -> In a l -> In b l -> f a = f b -> a = b.
Proof.
  induction l as [|x l IH]; cbn; intros Hl Ha Hb E; [destruct Ha|].
  inversion Hl as [|? ? Hx Hl']; subst.
  destruct Ha as [<-|Ha], Hb as [<-|Hb]; try reflexivity.
  - exfalso. apply Hx. rewrite E. apply in_map, Hb.
  - exfalso. apply Hx. rewrite <- E. apply in_map, Ha.
  - apply IH; assumption.
Qed.

Lemma slug_taken_false (db : list Database) (s : pystr) :
  slug_taken db s = false -> ~ In s (map slug db).
Proof.
  intros Hf Hin. apply in_map_iff in Hin as (d & Hd & Hin).
  assert (Ht : slug_taken db s = true).
  { apply existsb_exists. exists d. split; [exact Hin|]. apply bool_decide_eq_true. exact Hd. }
  congruence.
Qed.

Lemma id_taken_false (db : list Database) (i : Z) :
  id_taken db i = false -> ~ In i (map id db).
Proof.
  intros Hf Hin. apply in_map_iff in Hin as (d & Hd & Hin).
  assert (Ht : id_taken db i = true).
  { apply existsb_exists. exists d. split; [exact Hin|]. apply Z.eqb_eq. exact Hd. }
  congruence.
Qed.

Lemma keeps_bind {A B} (m : M A) (f : A -> M B) :
  keeps_db m -> (forall a, keeps_db (f a)) -> keeps_db (bind m f).
Proof.
  intros Hm Hf st. unfold bind. specialize (Hm st).
  destruct (m st) as [[e|a] st'] eqn:E; cbn in *; [exact Hm|]. rewrite Hf. exact Hm.
Qed.

Lemma keeps_ret {A} (a : A) : keeps_db (ret a).
Proof. intros st. reflexivity. Qed.

Lemma keeps_raise {A} (e : ApiError) : keeps_db (@raise A e).
Proof. intros st. reflexivity. Qed.

Lemma keeps_get_db : keeps_db get_db.
Proof. intros st. reflexivity. Qed.

Lemma keeps_lift_option {A} (w : pystr) (o : option A) : keeps_db (lift_option w o).
Proof. intros st. destruct o; reflexivity. Qed.

Lemma keeps_cache_op {A} (f : cache_state -> A * cache_state) : keeps_db (cache_op f).
Proof. intros st. unfold cache_op. destruct (f (st_cache st)); reflexivity. Qed.

Lemma keeps_mapM {A B} (f : A -> M B) (l : list A) :
  (forall a, keeps_db (f a)) -> keeps_db (mapM f l).
Proof.
  intros Hf. induction l as [|x l IH]; cbn [mapM]; [apply keeps_ret|].
  apply keeps_bind; [apply Hf|]. intros y. apply keeps_bind; [exact IH|]. intros ys. apply keeps_ret.
Qed.

Ltac keeps_tac :=
  repeat match goal with
  | |- forall _, _ => intros ?
  | |- keeps_db (bind _ _) => apply keeps_bind
  | |- keeps_db (ret _) => apply keeps_ret
  | |- keeps_db (raise _) => apply keeps_raise
  | |- keeps_db get_db => apply keeps_get_db
  | |- keeps_db (lift_option _ _) => apply keeps_lift_option
  | |- keeps_db (cache_op _) => apply keeps_cache_op
  | |- keeps_db (mapM _ _) => apply keeps_mapM
  | |- keeps_db (match ?x with _ => _ end) => destruct x
  | |- keeps_db (if ?b then _ else _) => destruct b
  end.

Section Reads.
Context `{Aes256} `{PyLib}.

Lemma keeps_to_response (d : Database) : keeps_db (to_response d).
Proof. unfold to_response. keeps_tac. Qed.

Lemma keeps_query_page (skip limit : Z) : keeps_db (query_page skip limit).
Proof. unfold query_page. keeps_tac. Qed.

Lemma keeps_get_by (x : pystr) : keeps_db (get_database_by_id_or_slug x).
Proof. unfold get_database_by_id_or_slug. keeps_tac. Qed.

Lemma keeps_validate_list (v : pyval) : keeps_db (validate_list v).
Proof. unfold validate_list. keeps_tac. Qed.

Lemma keeps_get_databases (bg bs : backend) (skip limit : Z) :
  keeps_db (get_databases bg bs skip limit).
Proof.
  unfold get_databases. cbv zeta. keeps_tac;
    first [apply keeps_to_response | apply keeps_query_page | apply keeps_validate_list].
Qed.

Lemma keeps_get_database (bg bs : backend) (x : pystr) : keeps_db (get_database bg bs x).
Proof.
  unfold get_database. cbv zeta. keeps_tac;
    first [apply keeps_to_response | apply keeps_get_by].
Qed.

End Reads.

Section Registry.
Context `{Aes256} `{PyLib}.

(** A lookup that finds no row changes nothing: a text that matches no
    stored row (by id when it parses as a UUID, by slug otherwise) makes
    the lookup, the update and the delete answer 404 and leave the table
    and the cache as they were, so a failed update or delete invalidates
    nothing; a text that parses as a UUID is never looked up by slug.  A
    text that is no UUID and holds a NUL or a lone surrogate makes them fail
    instead with the driver's exception (a 500), raised inside the [except
    ValueError] handler, whatever the table holds, and again changes
    nothing. *)
Theorem lookup_miss_changes_nothing (x : pystr) (st : St) (bi : backend) (now : Z)
    (din : DatabaseUpdate) :
  ((forall d, In d (st_db st) -> row_matches x d = false) -> text_sendable x = true ->
   get_database_by_id_or_slug x st = (inl (not_found x), st) /\
   update_database bi now x din st = (inl (not_found x), st) /\
   delete_database bi x st = (inl (not_found x), st)) /\
  (text_sendable x = false ->
   get_database_by_id_or_slug x st = (inl (Internal (driver_text_error x)), st) /\
   update_database bi now x din st = (inl (Internal (driver_text_error x)), st) /\
   delete_database bi x st = (inl (Internal (driver_text_error x)), st)).
Proof.
  assert (Hall : forall e, lookup_result x (st_db st) = inl e ->
            get_database_by_id_or_slug x st = (inl e, st) /\
            update_database bi now x din st = (inl e, st) /\
            delete_database bi x st = (inl e, st)).
  { intros e Hl. assert (Hg : get_database_by_id_or_slug x st = (inl e, st))
      by (rewrite get_by_eq, Hl; reflexivity).
    split; [exact Hg|]. split; unfold update_database, delete_database; apply bind_inl, Hg. }
  split.
  - intros Hn Ht. apply Hall, lookup_no_match; assumption.
  - intros Ht. apply Hall, lookup_unsendable, Ht.
Qed.

(** Every request keeps the ids and the slugs of the table unique. *)
Theorem handle_keeps_table_ok (r : request) (st : St) :
  table_ok (st_db st) -> table_ok (st_db (handle r st)).
Proof.
  intros [Hid Hsl]. destruct r as [bg bs skip limit|bg bs x|bi nid now din|bi now x din|bi x|key|key v];
    cbn [handle].
  - rewrite keeps_get_databases. split; assumption.
  - rewrite keeps_get_database. split; assumption.
  - destruct (create_shape bi nid now din st) as [(e & ->)|(d & _ & Hst & _ & Hit & Hd & ->)];
      cbn; [split; assumption|].
    unfold table_ok. rewrite !map_app. split; apply nodup_snoc; try assumption.
    + apply id_taken_false. replace (id d) with nid by (rewrite Hd; reflexivity). exact Hit.
    + apply slug_taken_false. exact Hst.
  - destruct (update_shape bi now x din st)
      as [(e & ->)|(d & d' & Hl & _ & _ & _ & _ & _ & Hi & Hs & _ & [(_ & _ & _ & _ & _ & _ & ->)|(_ & _ & _ & ->)])];
      cbn; try (split; assumption).
    destruct (lookup_match x _ d Hl) as [Hin _].
    assert (Emap : forall B (f : Database -> B), f d' = f d ->
              map f (replace_by_id d' (st_db st)) = map f (st_db st)).
    { intros B f Hf. unfold replace_by_id. rewrite map_map. apply map_ext_in.
      intros e He. destruct (Z.eqb_spec (id e) (id d')) as [Ee|]; [|reflexivity].
      rewrite Hf. f_equal. apply (nodup_map_eq id (st_db st)); [exact Hid | exact Hin | exact He |].
      congruence. }
    unfold table_ok. rewrite (Emap _ id Hi), (Emap _ slug Hs). split; assumption.
  - destruct (delete_shape bi x st) as [(e & _ & ->)|(d & _ & ->)]; cbn; [split; assumption|].
    split; apply nodup_map_filter; assumption.
  - split; assumption.
  - destruct (is_prefix registry_prefix key); split; assumption.
Qed.

(** After a successful delete, the same text (with unique slugs) matches no
    row any more: the lookup answers 404 and a second delete of it is a 404
    that changes nothing. *)
Theorem delete_then_not_found (bi bi' : backend) (x : pystr) (st st' : St) :
  table_ok (st_db st) -> delete_database bi x st = (inr tt, st') ->
  lookup_result x (st_db st') = inl (not_found x) /\
  delete_database bi' x st' = (inl (not_found x), st').
Proof.
  intros [_ Hsl] Hdel.
  destruct (delete_shape bi x st) as [(e & _ & E)|(d & Hl & E)]; rewrite Hdel in E;
    [discriminate|]. injection E as ->. cbn [st_db].
  destruct (lookup_match x _ d Hl) as (Hin & Hm & Ht).
  assert (Hn : forall e, In e (List.filter (fun d' => negb (id d' =? id d)) (st_db st)) ->
                 row_matches x e = false).
  { intros e He. apply filter_In in He as [He Hne]. apply negb_true_iff, Z.eqb_neq in Hne.
    revert Hm. unfold row_matches. destruct (uuid_parse x) as [u|].
    - intros Hd. apply Z.eqb_eq in Hd. apply Z.eqb_neq. congruence.
    - intros Hd. apply bool_decide_eq_true in Hd. apply bool_decide_eq_false. intros Hx.
      apply Hne. f_equal. apply (nodup_map_eq slug (st_db st)); [exact Hsl | exact He | exact Hin |].
      congruence. }
  pose proof (lookup_no_match x _ Hn Ht) as Hl'. split; [exact Hl'|].
  unfold delete_database. apply bind_inl. rewrite get_by_eq. cbn [st_db]. rewrite Hl'. reflexivity.
Qed.

(** A created record is read back at once: the next item read with Redis
    up misses the cache and answers the create's response, by the new id
    and by the picked slug (when that slug does not parse as a UUID). *)
Theorem create_then_get (bs : backend) (nid now : Z) (din : DatabaseCreate) (st st' : St)
    (r : DatabaseResponse) :
  create_database Up nid now din st = (inr r, st') ->
  exists s, generate_unique_slug (c_name din) (st_db st) = Some s /\
    (forall x, uuid_parse x = Some nid -> fst (get_database Up bs x st') = inr (r, MISS)) /\
    (uuid_parse s = None -> fst (get_database Up bs s st') = inr (r, MISS)).
Proof.
  intros Hc. destruct (create_shape Up nid now din st)
    as [(e & E)|(d & Hg & Hst & Hok & Hit & Hd & E)]; rewrite Hc in E; [discriminate|].
  injection E as Hr ->. exists (slug d). split; [exact Hg|].
  destruct (fresh_after_invalidate (st_db st ++ [d]) (st_cache st)) as (_ & _ & Hfresh).
  assert (Hread : forall x, row_matches x d = true -> text_sendable x = true ->
            (forall e, In e (st_db st) -> row_matches x e = false) ->
            fst (get_database Up bs x (mkSt (st_db st ++ [d]) (invalidate_database_cache Up (st_cache st))))
              = inr (r, MISS)).
  { intros x Hx Ht Hn. rewrite Hfresh. cbn [st_db]. unfold item_miss_result.
    rewrite lookup_result_find, Ht, (find_snoc _ _ _ Hn Hx), <- Hr. reflexivity. }
  split.
  - intros x Hu. apply Hread.
    + unfold row_matches. rewrite Hu, Hd. cbn [id]. apply Z.eqb_refl.
    + unfold text_sendable. rewrite Hu. reflexivity.
    + intros e He. unfold row_matches. rewrite Hu. apply Z.eqb_neq. intros Ee.
      apply (id_taken_false _ _ Hit). rewrite <- Ee. apply in_map, He.
  - intros Hu. apply Hread.
    + unfold row_matches. rewrite Hu. apply bool_decide_eq_true. reflexivity.
    + unfold text_sendable. rewrite Hu. apply row_ok_slug, Hok.
    + intros e He. unfold row_matches. rewrite Hu. apply bool_decide_eq_false. intros Ee.
      apply (slug_taken_false _ _ Hst). rewrite <- Ee. apply in_map, He.
Qed.

End Registry.

Lemma lookup_miss_changes_nothing_witness :
  slug uuid_named_db = uuid_text /\
  (forall d, In d (st_db (mkSt [uuid_named_db; sample_db] empty_cache)) ->
     @row_matches uuid_lib uuid_text d = false) /\
  @text_sendable uuid_lib uuid_text = true /\
  @get_database_by_id_or_slug uuid_lib uuid_text (mkSt [uuid_named_db; sample_db] empty_cache)
    = (inl (not_found uuid_text), mkSt [uuid_named_db; sample_db] empty_cache) /\
  @update_database xor_key_cipher uuid_lib Up 200 uuid_text
    (mkDatabaseUpdate (SetTo (Some (pys "Renamed"))) Unset Unset Unset Unset)
    (mkSt [uuid_named_db; sample_db] empty_cache)
    = (inl (not_found uuid_text), mkSt [uuid_named_db; sample_db] empty_cache) /\
  @delete_database uuid_lib Up uuid_text (mkSt [uuid_named_db; sample_db] empty_cache)
    = (inl (not_found uuid_text), mkSt [uuid_named_db; sample_db] empty_cache) /\
  @text_sendable uuid_lib (pys "prod-db" ++ [0]) = false /\
  @delete_database uuid_lib Up (pys "prod-db" ++ [0]) (mkSt [uuid_named_db; sample_db] empty_cache)
    = (inl (Internal (pys "ValueError")), mkSt [uuid_named_db; sample_db] empty_cache).
Proof.
  split; [reflexivity|].
  assert (Hn : forall d, In d (st_db (mkSt [uuid_named_db; sample_db] empty_cache)) ->
                 @row_matches uuid_lib uuid_text d = false)
    by (intros d [<-|[<-|[]]]; vm_compute; reflexivity).
  assert (Ht : @text_sendable uuid_lib uuid_text = true) by (vm_compute; reflexivity).
  assert (Hu : @text_sendable uuid_lib (pys "prod-db" ++ [0]) = false) by (vm_compute; reflexivity).
  split; [exact Hn|]. split; [exact Ht|].
  destruct (@lookup_miss_changes_nothing xor_key_cipher uuid_lib uuid_text
              (mkSt [uuid_named_db; sample_db] empty_cache) Up 200
              (mkDatabaseUpdate (SetTo (Some (pys "Renamed"))) Unset Unset Unset Unset))
    as [H1 _].
  destruct (H1 Hn Ht) as (E1 & E2 & E3).
  split; [exact E1|]. split; [exact E2|]. split; [exact E3|]. split; [exact Hu|].
  destruct (@lookup_miss_changes_nothing xor_key_cipher uuid_lib (pys "prod-db" ++ [0])
              (mkSt [uuid_named_db; sample_db] empty_cache) Up 200
              (mkDatabaseUpdate Unset Unset Unset Unset Unset))
    as [_ H2].
  exact (proj2 (proj2 (H2 Hu))).
Defined.

Lemma handle_keeps_table_ok_witness :
  table_ok [sample_db; uuid_named_db] /\
  table_ok (st_db (@handle xor_key_cipher ascii_lib (CreateReq Up 8 200 sample_create)
                     (mkSt [sample_db; uuid_named_db] empty_cache))).
Proof.
  assert (Hok : table_ok [sample_db; uuid_named_db])
    by (split; vm_compute;
        (constructor; [intros [Hin|[]]; discriminate | constructor; [intros [] | constructor]])).
  split; [exact Hok|].
  exact (@handle_keeps_table_ok xor_key_cipher ascii_lib (CreateReq Up 8 200 sample_create)
           (mkSt [sample_db; uuid_named_db] empty_cache) Hok).
Defined.

Lemma delete_then_not_found_witness :
  table_ok [sample_db; uuid_named_db] /\
  @delete_database ascii_lib Up (pys "prod-db") (mkSt [sample_db; uuid_named_db] empty_cache)
    = (inr tt, snd (@delete_database ascii_lib Up (pys "prod-db")
                      (mkSt [sample_db; uuid_named_db] empty_cache))) /\
  @lookup_result ascii_lib (pys "prod-db")
    (st_db (snd (@delete_database ascii_lib Up (pys "prod-db")
                   (mkSt [sample_db; uuid_named_db] empty_cache))))
    = inl (not_found (pys "prod-db")) /\
  @delete_database ascii_lib Up (pys "prod-db")
    (snd (@delete_database ascii_lib Up (pys "prod-db") (mkSt [sample_db; uuid_named_db] empty_cache)))
    = (inl (not_found (pys "prod-db")),
       snd (@delete_database ascii_lib Up (pys "prod-db") (mkSt [sample_db; uuid_named_db] empty_cache))).
Proof.
  assert (Hok : table_ok [sample_db; uuid_named_db])
    by (split; vm_compute;
        (constructor; [intros [Hin|[]]; discriminate | constructor; [intros [] | constructor]])).
  assert (Hd : @delete_database ascii_lib Up (pys "prod-db") (mkSt [sample_db; uuid_named_db] empty_cache)
    = (inr tt, snd (@delete_database ascii_lib Up (pys "prod-db")
                      (mkSt [sample_db; uuid_named_db] empty_cache)))) by (vm_compute; reflexivity).
  split; [exact Hok|]. split; [exact Hd|].
  exact (@delete_then_not_found ascii_lib Up Up (pys "prod-db")
           (mkSt [sample_db; uuid_named_db] empty_cache) _ Hok Hd).
Defined.

Lemma create_then_get_witness :
  exists r st',
    @create_database xor_key_cipher ascii_lib Up 8 200 sample_create (mkSt [sample_db] empty_cache)
      = (inr r, st') /\
    exists s, @generate_unique_slug ascii_lib (c_name sample_create) [sample_db] = Some s /\
      (forall x, @uuid_parse ascii_lib x = Some 8 ->
         fst (@get_database xor_key_cipher ascii_lib Up Up x st') = inr (r, MISS)) /\
      (@uuid_parse ascii_lib s = None ->
         fst (@get_database xor_key_cipher ascii_lib Up Up s st') = inr (r, MISS)).
Proof.
  destruct (@create_database xor_key_cipher ascii_lib Up 8 200 sample_create (mkSt [sample_db] empty_cache))
    as [[e|r] st'] eqn:E; [vm_compute in E; discriminate|].
  exists r, st'. split; [reflexivity|].
  exact (@create_then_get xor_key_cipher ascii_lib Up 8 200 sample_create _ _ _ E).
Defined.

End RegistryFacts.

Module CipherFacts.
Import Crypto CryptoFacts.

Lemma valid_cp_intro (c : Z) : 0 <= c < 55296 \/ 57343 < c < 1114112 -> valid_cp c.
Proof.
  unfold valid_cp, is_surrogate. intros [Hc|Hc]; (split; [lia|]).
  - rewrite (proj2 (Z.leb_gt 55296 c)) by lia. reflexivity.
  - rewrite (proj2 (Z.leb_gt c 57343)) by lia. apply andb_false_r.
Qed.

Lemma utf8_encode_cp_valid (c : Z) (b : list Z) : utf8_encode_cp c = Some b -> valid_cp c.
Proof.
  unfold utf8_encode_cp.
  destruct (Z.ltb_spec c 0); [discriminate|].
  destruct (Z.ltb_spec c 128); [intros _; apply valid_cp_intro; lia|].
  destruct (Z.ltb_spec c 2048); [intros _; apply valid_cp_intro; lia|].
  destruct (Z.ltb_spec c 65536).
  - destruct (is_surrogate c) eqn:Es; [discriminate|]. intros _. split; [lia | exact Es].
  - destruct (Z.ltb_spec c 1114112); [|discriminate]. intros _. apply valid_cp_intro. lia.
Qed.

Lemma utf8_encode_valid (s : pystr) (bs : list Z) : utf8_encode s = Some bs -> Forall valid_cp s.
Proof.
  revert bs. induction s as [|c s IH]; intros bs; cbn [utf8_encode]; [constructor|].
  destruct (utf8_encode_cp c) as [b|] eqn:Ec; [|discriminate].
  destruct (utf8_encode s) as [bs'|] eqn:Es; [|discriminate]. intros _.
  constructor; [apply (utf8_encode_cp_valid c b Ec) | apply (IH bs'); reflexivity].
Qed.

(** What [str.encode('utf-8')] gives back decodes to the text, and is made
    of bytes. *)
Lemma utf8_encode_decode (s : pystr) (bs : list Z) :
  utf8_encode s = Some bs -> Forall is_byte bs /\ utf8_decode bs = Some s.
Proof.
  intros E. destruct (utf8_roundtrip s (utf8_encode_valid s bs E)) as (bs' & E' & Hb & Hd).
  rewrite E in E'. injection E' as <-. split; assumption.
Qed.


Section Cipher.
Context `{Aes256}.

(** A non-empty plaintext encrypts exactly when it encodes as UTF-8; the
    ciphertext behind the base64 text is then [n / 16 + 1] whole blocks
    of 16 bytes, [n] being the UTF-8 length of the plaintext: its length
    gives the plaintext's length away to within one block. *)
Theorem encrypt_ciphertext_blocks (p : pystr) :
  block_inverse -> p <> [] ->
  match utf8_encode p with
  | None => encrypt_connection_string p = None
  | Some bs => exists c e, encrypt_connection_string p = Some c /\ b64decode c = Some e /\
                 length e = (16 * (length bs / 16 + 1))%nat
  end.
Proof.
  intros Hinv Hp. unfold encrypt_connection_string.
  destruct p as [|ch p']; [congruence|]. cbn [is_empty].
  destruct (utf8_encode (ch :: p')) as [bs|] eqn:Eu; [|reflexivity].
  destruct (utf8_encode_decode _ _ Eu) as [Hb _].
  set (k := length bs).
  assert (Hpad : length (pkcs7_pad bs) = (16 * (k / 16 + 1))%nat).
  { rewrite pkcs7_pad_length. fold k.
    pose proof (Nat.div_mod_eq k 16). pose proof (Nat.mod_upper_bound k 16 ltac:(lia)). lia. }
  assert (Hdiv : (length (pkcs7_pad bs) / 16 = k / 16 + 1)%nat)
    by (rewrite Hpad, Nat.mul_comm, Nat.div_mul; lia).
  unfold cbc_encrypt. rewrite (pkcs7_pad_mod bs). cbn [Nat.eqb].
  destruct iv_ok as [Hiv Hivb].
  destruct (cbc_blocks_roundtrip Hinv (length (pkcs7_pad bs) / 16) ENCRYPTION_IV (pkcs7_pad bs)
              Hiv Hivb ltac:(rewrite Hdiv; exact Hpad) (pkcs7_pad_bytes bs Hb))
    as (Hl & Hbe & _).
  do 2 eexists. split; [reflexivity|]. split; [apply b64_roundtrip, Hbe|].
  rewrite Hl, Hdiv. reflexivity.
Qed.

End Cipher.

Lemma encrypt_ciphertext_blocks_witness :
  @block_inverse xor_key_cipher /\ pys "secret1" <> [] /\
  match utf8_encode (pys "secret1") with
  | None => @encrypt_connection_string xor_key_cipher (pys "secret1") = None
  | Some bs => exists c e, @encrypt_connection_string xor_key_cipher (pys "secret1") = Some c /\
                 b64decode c = Some e /\ length e = (16 * (length bs / 16 + 1))%nat
  end.
Proof.
  assert (Hp : pys "secret1" <> []) by discriminate.
  split; [exact xor_key_cipher_inverse|]. split; [exact Hp|].
  exact (@encrypt_ciphertext_blocks xor_key_cipher (pys "secret1") xor_key_cipher_inverse Hp).
Defined.

End CipherFacts.

Module BackupScriptFacts.
Import Crypto Model Lib Backup CryptoFacts CipherFacts.

Lemma double_quotes_inj (v w : pystr) : double_quotes v = double_quotes w -> v = w.
Proof.
  revert w. induction v as [|c v IH]; intros [|d w]; cbn; try reflexivity.
  - destruct (d =? 39); discriminate.
  - destruct (c =? 39); discriminate.
  - destruct (Z.eqb_spec c 39), (Z.eqb_spec d 39); intros E.
    + subst c d. injection E as E. f_equal. apply IH, E.
    + injection E as E1 _. congruence.
    + injection E as E1 _. congruence.
    + injection E as <- E. f_equal. apply IH, E.
Qed.

(** Inside a quoted literal the doubled quotes of [double_quotes] are read
    back as quote characters and the closing quote ends the literal. *)
Lemma split_quoted (v : pystr) :
  forall cur rest,
  split_statements LQuote cur (double_quotes v ++ 39 :: rest)
  = split_statements LNormal (cur ++ double_quotes v ++ [39]) rest.
Proof.
  induction v as [|c v IH]; intros cur rest.
  - reflexivity.
  - cbn [double_quotes]. destruct (Z.eqb_spec c 39) as [->|Hc].
    + cbn [app split_statements Z.eqb Pos.eqb].
      rewrite IH, <- !app_assoc. reflexivity.
    + cbn [app split_statements]. rewrite (proj2 (Z.eqb_neq c 39) Hc).
      rewrite IH, <- !app_assoc. reflexivity.
Qed.

(** Where a token of psql's lexer starts: at the start of a statement, or
    after a space, a line break, a comma or an opening parenthesis (after a
    lone [E], a quote would open an escape string instead). *)
Definition token_boundary (cur : pystr) : bool :=
  match rev cur with
  | [] => true
  | c :: _ => (c =? 32) || (c =? 10) || (c =? 44) || (c =? 40)
  end.

Section Script.
Context `{PyLib}.

(** [escape_sql_string] is injective, and what it writes is read by the
    statement splitter of [psql] as one token when it starts a token:
    outside literals and comments, at the start of a statement or after a
    space, a line break, a comma or an opening parenthesis (as every value
    of the backup script is placed), with [standard_conforming_strings] on
    (PostgreSQL's default), nothing in a value can end a statement, open a
    comment or a dollar-quoted body. *)
Theorem escape_sql_string_token (value value' : option pystr) :
  (escape_sql_string value = escape_sql_string value' -> value = value') /\
  forall cur rest, token_boundary cur = true ->
    split_statements LNormal cur (escape_sql_string value ++ rest)
    = split_statements LNormal (cur ++ escape_sql_string value) rest.
Proof.
  split.
  - destruct value as [v|], value' as [w|]; cbn; intros E; try reflexivity.
    + injection E as E. apply app_inv_tail in E. f_equal. apply double_quotes_inj, E.
    + discriminate.
    + discriminate.
  - intros cur rest _. destruct value as [v|]; cbn [escape_sql_string].
    + rewrite <- !app_assoc. cbn [app split_statements Z.eqb Pos.eqb].
      rewrite split_quoted. rewrite <- !app_assoc. reflexivity.
    + cbn. rewrite <- !app_assoc. cbn.
      destruct rest as [|r rest]; reflexivity.
Qed.

(** [backup_databases] fails (500) exactly when the script does not encode
    as UTF-8. Otherwise its base64 text decodes to the script's UTF-8 bytes
    (a backup restores the script), [size_bytes] is their number,
    [size_mb] is that number over 2^20 rounded to 4 decimals (to the
    nearest ten-thousandth), [total_records] is the number of rows, and
    [download_backup_sql] sends the same script with the same size and
    count headers. *)
Theorem backup_databases_spec (stamp : pystr) (db : list Database) :
  match utf8_encode (generate_backup_sql db) with
  | None => backup_databases db = None /\ download_backup_sql stamp db = None
  | Some bs =>
      exists r, backup_databases db = Some r /\
        b64decode (sql_base64 r) = Some bs /\
        utf8_decode bs = Some (generate_backup_sql db) /\
        size_bytes r = Z.of_nat (length bs) /\
        2 * Z.abs (Z.of_nat (length bs) * 10000 - size_mb r * 1048576) <= 1048576 /\
        total_records r = Z.of_nat (length db) /\
        format r = pys "sql" /\ compression r = pys "base64" /\
        exists dl, download_backup_sql stamp db = Some dl /\
          content dl = generate_backup_sql db /\
          backup_size_mb dl = size_mb r /\ backup_records dl = total_records r
  end.
Proof.
  unfold backup_databases, download_backup_sql, encode_sql_to_base64, calculate_size_mb.
  destruct (utf8_encode (generate_backup_sql db)) as [bs|] eqn:Eu; cbn [option_map];
    [|split; reflexivity].
  destruct (utf8_encode_decode _ _ Eu) as [Hb Hd].
  eexists. split; [reflexivity|]. cbn [sql_base64 size_mb size_bytes total_records format compression].
  split; [apply b64_roundtrip, Hb|]. split; [exact Hd|]. split; [reflexivity|].
  split.
  - unfold round_half_even. change (1024 * 1024) with 1048576.
    set (n := Z.of_nat (length bs) * 10000).
    assert (Hn : 0 <= n) by lia.
    destruct (Z.ltb_spec (2 * (n mod 1048576)) 1048576); [zlia|].
    destruct (Z.ltb_spec 1048576 (2 * (n mod 1048576))); [zlia|].
    destruct (Z.even (n / 1048576)); zlia.
  - do 3 (split; [reflexivity|]). eexists. split; [reflexivity|]. repeat split.
Qed.

End Script.

End BackupScriptFacts.

Module ReadCacheFacts.
Import Crypto Model Lib Cache Service ServiceFacts RegistryFacts.

(** A handler that leaves the Redis store as it found it. *)
Definition keeps_store {A} (m : M A) : Prop :=
  forall st, store (st_cache (snd (m st))) = store (st_cache st).

(** A handler whose only write to Redis, if any, stores the empty list
    under [key]. *)
Definition writes_empty_at (key : pystr) {A} (m : M A) : Prop :=
  forall st, store (st_cache (snd (m st))) = store (st_cache st) \/
             store (st_cache (snd (m st))) = <[key := JArr []]> (store (st_cache st)).

Lemma keeps_store_bind {A B} (m : M A) (f : A -> M B) :
  keeps_store m -> (forall a, keeps_store (f a)) -> keeps_store (bind m f).
Proof.
  intros Hm Hf st. unfold bind. specialize (Hm st).
  destruct (m st) as [[e|a] st']; cbn in *; [exact Hm|]. rewrite Hf. exact Hm.
Qed.

Lemma writes_bind_l {A B} (key : pystr) (m : M A) (f : A -> M B) :
  keeps_store m -> (forall a, writes_empty_at key (f a)) -> writes_empty_at key (bind m f).
Proof.
  intros Hm Hf st. unfold bind. specialize (Hm st).
  destruct (m st) as [[e|a] st']; cbn in *; [left; exact Hm|]. rewrite <- Hm. apply Hf.
Qed.

Lemma writes_bind_r {A B} (key : pystr) (m : M A) (f : A -> M B) :
  writes_empty_at key m -> (forall a, keeps_store (f a)) -> writes_empty_at key (bind m f).
Proof.
  intros Hm Hf st. unfold bind. specialize (Hm st).
  destruct (m st) as [[e|a] st']; cbn in *; [exact Hm|]. rewrite Hf. exact Hm.
Qed.

Lemma keeps_writes {A} (key : pystr) (m : M A) : keeps_store m -> writes_empty_at key m.
Proof. intros Hm st. left. apply Hm. Qed.

Lemma keeps_store_ret {A} (a : A) : keeps_store (ret a).
Proof. intros st. reflexivity. Qed.

Lemma keeps_store_raise {A} (e : ApiError) : keeps_store (@raise A e).
Proof. intros st. reflexivity. Qed.

Lemma keeps_store_get_db : keeps_store get_db.
Proof. intros st. reflexivity. Qed.

Lemma keeps_store_lift_option {A} (w : pystr) (o : option A) : keeps_store (lift_option w o).
Proof. intros st. destruct o; reflexivity. Qed.

Lemma keeps_store_get_cache (b : backend) (key : pystr) : keeps_store (cache_op (get_cache b key)).
Proof.
  intros st. unfold cache_op, get_cache. destruct b; [destruct (store (st_cache st) !! key)|];
    reflexivity.
Qed.

Lemma keeps_store_mapM {A B} (f : A -> M B) (l : list A) :
  (forall a, keeps_store (f a)) -> keeps_store (mapM f l).
Proof.
  intros Hf. induction l as [|x l IH]; cbn [mapM]; [apply keeps_store_ret|].
  apply keeps_store_bind; [apply Hf|]. intros y.
  apply keeps_store_bind; [exact IH|]. intros ys. apply keeps_store_ret.
Qed.

(** The JSON error of a response's dump: its [id] field. *)
Definition uuid_error : pystr := pys "Object of type UUID is not JSON serializable".

Lemma dumps_model_dump_uuid (r : DatabaseResponse) : json_dumps (model_dump r) = inl uuid_error.
Proof. destruct r as [? ? ? [d|] ? ? ? ?]; reflexivity. Qed.

Lemma keeps_store_set_item (b : backend) (key : pystr) (r : DatabaseResponse) (ttl : Z) :
  keeps_store (cache_op (set_cache b key (model_dump r) ttl)).
Proof.
  intros st. unfold cache_op, set_cache. destruct b; [rewrite dumps_model_dump_uuid|]; reflexivity.
Qed.

Lemma writes_set_list (b : backend) (key : pystr) (rs : list DatabaseResponse) (ttl : Z) :
  writes_empty_at key (cache_op (set_cache b key (PList (map model_dump rs)) ttl)).
Proof.
  intros st. unfold cache_op.
  destruct (set_cache_store b key (PList (map model_dump rs)) ttl (st_cache st)) as [Hs|(j & Hj & Hs)];
    destruct (set_cache b key (PList (map model_dump rs)) ttl (st_cache st)) as [ok c'];
    cbn in *; [left; exact Hs|].
  apply dumps_response_list in Hj as [_ ->]. right. exact Hs.
Qed.

Section Reads.
Context `{Aes256} `{PyLib}.

Lemma keeps_store_to_response (d : Database) : keeps_store (to_response d).
Proof. intros st. rewrite to_response_eq. reflexivity. Qed.

Lemma keeps_store_query_page (skip limit : Z) : keeps_store (query_page skip limit).
Proof. intros st. rewrite query_page_eq. reflexivity. Qed.

Lemma keeps_store_get_by (x : pystr) : keeps_store (get_database_by_id_or_slug x).
Proof. intros st. rewrite get_by_eq. reflexivity. Qed.

Lemma keeps_store_validate_list (v : pyval) : keeps_store (validate_list v).
Proof.
  unfold validate_list. destruct v; try apply keeps_store_raise.
  apply keeps_store_mapM. intros a. apply keeps_store_lift_option.
Qed.

(** The miss branch of [get_database], in closed form. *)
Lemma item_miss_eq (bs : backend) (x : pystr) (st : St) :
  (database <- get_database_by_id_or_slug x;;
   result <- to_response database;;
   cache_op (set_cache bs (cache_key_database x) (model_dump result) CACHE_TTL);;;
   ret (result, MISS)) st =
  match lookup_result x (st_db st) with
  | inl e => (inl e, st)
  | inr d =>
      match response_result d with
      | inl e => (inl e, st)
      | inr r => (inr (r, MISS),
                  mkSt (st_db st) (snd (set_cache bs (cache_key_database x) (model_dump r) CACHE_TTL
                                          (st_cache st))))
      end
  end.
Proof.
  destruct (lookup_result x (st_db st)) as [e|d] eqn:El.
  { apply bind_inl. rewrite get_by_eq, El. reflexivity. }
  rewrite (bind_inr _ _ st st d) by (rewrite get_by_eq, El; reflexivity).
  destruct (response_result d) as [e|r] eqn:Er.
  { apply bind_inl. rewrite to_response_eq, Er. reflexivity. }
  rewrite (bind_inr _ _ st st r) by (rewrite to_response_eq, Er; reflexivity).
  unfold bind, cache_op. destruct (set_cache _ _ _ _ _); reflexivity.
Qed.

(** Reads never cache a record: an item read leaves the Redis store as it
    was, since [json.dumps] of a response's [model_dump()] raises on its
    UUID; after an item read that answers from storage with Redis up, the
    last log line is that set error. A list read writes at most its own
    key, and only with the empty list. *)
Theorem reads_cache_writes (st : St) :
  (forall bg bs x,
     store (st_cache (snd (get_database bg bs x st))) = store (st_cache st) /\
     (forall r, fst (get_database bg Up x st) = inr (r, MISS) ->
        exists pre, log (st_cache (snd (get_database bg Up x st))) =
          pre ++ [(WARNING, pys "Cache set error for key '" ++ cache_key_database x ++ pys "': "
                            ++ uuid_error)])) /\
  (forall bg bs skip limit,
     store (st_cache (snd (get_databases bg bs skip limit st))) = store (st_cache st) \/
     store (st_cache (snd (get_databases bg bs skip limit st)))
       = <[cache_key_database_list skip limit := JArr []]> (store (st_cache st))).
Proof.
  split.
  - intros bg bs x. split.
    + revert st. unfold get_database. cbv zeta.
      apply keeps_store_bind; [apply keeps_store_get_cache|]. intros cached.
      assert (Hmiss : keeps_store
        (database <- get_database_by_id_or_slug x;;
         result <- to_response database;;
         cache_op (set_cache bs (cache_key_database x) (model_dump result) CACHE_TTL);;;
         ret (result, MISS))).
      { apply keeps_store_bind; [apply keeps_store_get_by|]. intros d.
        apply keeps_store_bind; [apply keeps_store_to_response|]. intros r.
        apply keeps_store_bind; [apply keeps_store_set_item|]. intros _. apply keeps_store_ret. }
      destruct cached as [v|]; [destruct (py_truthy v)|]; [|exact Hmiss|exact Hmiss].
      apply keeps_store_bind; [apply keeps_store_lift_option|]. intros r. apply keeps_store_ret.
    + intros r. destruct (get_cache bg (cache_key_database x) (st_cache st)) as [cached c1] eqn:Hg.
      unfold get_database. cbv zeta.
      rewrite (bind_inr _ _ st (mkSt (st_db st) c1) cached)
        by (unfold cache_op; rewrite Hg; reflexivity).
      assert (Hm : forall res, res = (match lookup_result x (st_db st) with
          | inl e => (inl e, mkSt (st_db st) c1)
          | inr d => match response_result d with
                     | inl e => (inl e, mkSt (st_db st) c1)
                     | inr r0 => (inr (r0, MISS), mkSt (st_db st) (snd (set_cache Up (cache_key_database x)
                                                    (model_dump r0) CACHE_TTL c1)))
                     end
          end) -> fst res = inr (r, MISS) ->
        exists pre, log (st_cache (snd res)) =
          pre ++ [(WARNING, pys "Cache set error for key '" ++ cache_key_database x
                            ++ pys "': " ++ uuid_error)]).
      { intros res ->. destruct (lookup_result x (st_db st)) as [e|d]; [discriminate|].
        destruct (response_result d) as [e|r0]; [discriminate|]. intros _.
        unfold set_cache. cbn [snd st_cache]. rewrite dumps_model_dump_uuid.
        exists (log c1). reflexivity. }
      destruct cached as [v|]; [destruct (py_truthy v)|].
      * unfold bind, lift_option. intros E. destruct (response_validate v); discriminate E.
      * apply Hm. rewrite item_miss_eq. reflexivity.
      * apply Hm. rewrite item_miss_eq. reflexivity.
  - intros bg bs skip limit. revert st. unfold get_databases.
    apply writes_bind_l; [apply keeps_store_get_cache|]. intros cached.
    assert (Hmiss : writes_empty_at (cache_key_database_list skip limit)
      (databases <- query_page skip limit;;
       result <- mapM to_response databases;;
       cache_op (set_cache bs (cache_key_database_list skip limit)
                   (PList (map model_dump result)) CACHE_TTL);;;
       ret (result, MISS))).
    { apply writes_bind_l; [apply keeps_store_query_page|]. intros ds.
      apply writes_bind_l; [apply keeps_store_mapM, keeps_store_to_response|]. intros rs.
      apply writes_bind_r; [apply writes_set_list|]. intros _. apply keeps_store_ret. }
    destruct cached as [v|]; [destruct (py_truthy v)|]; [|exact Hmiss|exact Hmiss].
    apply keeps_writes, keeps_store_bind; [apply keeps_store_validate_list|].
    intros rs. apply keeps_store_ret.
Qed.

End Reads.
End ReadCacheFacts.

Module PagingFacts.
Import Crypto Model Lib Slug Cache Service Samples ServiceFacts.

Section Paging.
Context `{Aes256} `{PyLib}.

(** [skip] and [limit] are not validated: in every reachable state a list
    read with a negative one fails with a 500 (PostgreSQL refuses a
    negative OFFSET or LIMIT) and leaves the table as it was. *)
Theorem negative_page_fails (st : St) (bg bs : backend) (skip limit : Z) :
  reachable st -> skip < 0 \/ limit < 0 ->
  fst (get_databases bg bs skip limit st) = inl (Internal (pys "DataError")) /\
  st_db (snd (get_databases bg bs skip limit st)) = st_db st.
Proof.
  intros Hr Hneg. split.
  - rewrite (reachable_list_miss st bg bs skip limit Hr). unfold list_miss_result, query_page_result.
    destruct Hneg as [Hs|Hl].
    + rewrite (proj2 (Z.ltb_lt skip 0) Hs). reflexivity.
    + rewrite (proj2 (Z.ltb_lt limit 0) Hl), orb_true_r. reflexivity.
  - apply RegistryFacts.keeps_get_databases.
Qed.

End Paging.

Lemma negative_page_fails_witness :
  @reachable xor_key_cipher ascii_lib (mkSt [sample_db] empty_cache) /\ (-1 < 0 \/ 10 < 0) /\
  fst (@get_databases xor_key_cipher ascii_lib Up Up (-1) 10 (mkSt [sample_db] empty_cache))
    = inl (Internal (pys "DataError")) /\
  st_db (snd (@get_databases xor_key_cipher ascii_lib Up Up (-1) 10 (mkSt [sample_db] empty_cache)))
    = st_db (mkSt [sample_db] empty_cache).
Proof.
  assert (Hr : @reachable xor_key_cipher ascii_lib (mkSt [sample_db] empty_cache))
    by (apply reachable_init; intros k _; reflexivity).
  assert (Hn : -1 < 0 \/ 10 < 0) by (left; lia).
  split; [exact Hr|]. split; [exact Hn|].
  exact (@negative_page_fails xor_key_cipher ascii_lib _ Up Up (-1) 10 Hr Hn).
Defined.

End PagingFacts.

Module UuidFacts.
Import Backup CryptoFacts.

Lemma hex_digits_length (n : nat) (z : Z) : length (hex_digits n z) = n.
Proof.
  revert z. induction n as [|n IH]; intros z; cbn [hex_digits]; [reflexivity|].
  rewrite length_app, IH. cbn. lia.
Qed.

Lemma hex_char_inj (a b : Z) : 0 <= a < 16 -> 0 <= b < 16 -> hex_char a = hex_char b -> a = b.
Proof.
  unfold hex_char. intros Ha Hb.
  destruct (Z.ltb_spec a 10), (Z.ltb_spec b 10); lia.
Qed.

Lemma hex_digits_inj (n : nat) :
  forall z w, 0 <= z < 16 ^ Z.of_nat n -> 0 <= w < 16 ^ Z.of_nat n ->
  hex_digits n z = hex_digits n w -> z = w.
Proof.
  induction n as [|n IH]; intros z w Hz Hw; cbn [hex_digits].
  - cbn in Hz, Hw. lia.
  - intros E. apply app_inj_tail in E as [E1 E2].
    rewrite Nat2Z.inj_succ, Z.pow_succ_r in Hz, Hw by lia.
    set (p := 16 ^ Z.of_nat n) in *.
    apply hex_char_inj in E2; [|zlia|zlia].
    apply IH in E1; [|zlia|zlia]. zlia.
Qed.

(** [str(uuid)] of a 128-bit id is 36 characters long and different ids
    give different texts: the [id] column of a backup names each row by
    its own UUID. *)
Theorem uuid_str_injective :
  (forall u, length (uuid_str u) = 36%nat) /\
  (forall u v, 0 <= u < 2 ^ 128 -> 0 <= v < 2 ^ 128 -> uuid_str u = uuid_str v -> u = v).
Proof.
  assert (Hsplit : forall h, length h = 32%nat ->
    length (firstn 8 h ++ [45] ++ firstn 4 (skipn 8 h) ++ [45] ++ firstn 4 (skipn 12 h) ++ [45]
            ++ firstn 4 (skipn 16 h) ++ [45] ++ skipn 20 h) = 36%nat /\
    (let s := firstn 8 h ++ [45] ++ firstn 4 (skipn 8 h) ++ [45] ++ firstn 4 (skipn 12 h) ++ [45]
              ++ firstn 4 (skipn 16 h) ++ [45] ++ skipn 20 h in
     firstn 8 s ++ firstn 4 (skipn 9 s) ++ firstn 4 (skipn 14 s) ++ firstn 4 (skipn 19 s)
       ++ skipn 24 s = h)).
  { intros h Hh.
    do 32 (destruct h as [|? h]; [discriminate|]). destruct h; [|discriminate].
    split; reflexivity. }
  split.
  - intros u. apply (Hsplit _ (hex_digits_length 32 u)).
  - intros u v Hu Hv E. unfold uuid_str in E.
    destruct (Hsplit _ (hex_digits_length 32 u)) as [_ Ru].
    destruct (Hsplit _ (hex_digits_length 32 v)) as [_ Rv].
    cbv zeta in Ru, Rv. rewrite E in Ru. rewrite Ru in Rv.
    apply (hex_digits_inj 32); [exact Hu | exact Hv | exact Rv].
Qed.

End UuidFacts.
